(** * 3-2-1 vote application: candidate/vote store, merge and aggregation

    A shallow embedding of [main.py] (the current application) and of the
    parts of [app.py] (its earlier version) that differ from it:
    alias normalisation, schema migration of the two CSV stores, the
    vote form, the admin add/rename handlers with duplicate merge, and
    the ranked aggregation. *)

From stdpp Require Import base option list numbers gmap sorting strings.

Local Open Scope N_scope.

(** ** Python text

    A Python [str] is a sequence of Unicode code points. *)

Abbreviation str := (list N) (only parsing).

(** Code points of an ASCII literal. *)
Definition py (s : string) : str :=
  Ascii.N_of_ascii <$> String.list_ascii_of_string s.

(** Values a cell or an argument may hold; only [VStr] is an instance of
    [str]. *)
Inductive value :=
  | VStr (s : str)
  | VNone
  | VInt (z : Z)
  | VNaN.

(** [str.isspace] on one character, which is also the class [\s] of [re]
    on text patterns: both test [Py_UNICODE_ISSPACE]. *)
Definition is_space (c : N) : bool :=
  ((0x09 <=? c) && (c <=? 0x0D)) || ((0x1C <=? c) && (c <=? 0x20))
  || (c =? 0x85) || (c =? 0xA0) || (c =? 0x1680)
  || ((0x2000 <=? c) && (c <=? 0x200A))
  || (c =? 0x2028) || (c =? 0x2029) || (c =? 0x202F) || (c =? 0x205F)
  || (c =? 0x3000).

Fixpoint lstrip (s : str) : str :=
  match s with
  | c :: s' => if is_space c then lstrip s' else s
  | [] => []
  end.

Definition rstrip (s : str) : str := reverse (lstrip (reverse s)).

(** [s.strip()] *)
Definition strip (s : str) : str := rstrip (lstrip s).

(** ** AliasNormalizer ([normalize_for_merge]) *)

Definition PACKAGE : str := [0x30d1; 0x30c3; 0x30b1; 0x30fc; 0x30b8].

(** The four entries of [ALIAS_MAP]: half-width "package", "packaging",
    "pake" and the kanji word for wrapping, all mapped to [PACKAGE]. *)
Definition ALIAS_MAP : gmap str str :=
  list_to_map
    [ ([0xff8a; 0xff9f; 0xff6f; 0xff79; 0xff70; 0xff7c; 0xff9e], PACKAGE);
      ([0x30d1; 0x30c3; 0x30b1; 0x30fc; 0x30b8; 0x30f3; 0x30b0], PACKAGE);
      ([0x30d1; 0x30b1], PACKAGE);
      ([0x5305; 0x88c5], PACKAGE) ].

(** [chr(o + 0x60) if 0x3041 <= o <= 0x3096 else ch] *)
Definition hira_to_kata (o : N) : N :=
  if (0x3041 <=? o) && (o <=? 0x3096) then o + 0x60 else o.

(** The character class of [re.sub(r"[\s,、。・~〜\-_\/]+", "", s)]:
    white space, comma, ideographic comma and full stop, katakana middle
    dot, tilde, wave dash, hyphen, underscore, slash. *)
Definition is_separator (c : N) : bool :=
  is_space c
  || (c =? 0x2C) || (c =? 0x3001) || (c =? 0x3002) || (c =? 0x30FB)
  || (c =? 0x7E) || (c =? 0x301C) || (c =? 0x2D) || (c =? 0x5F)
  || (c =? 0x2F).

(** Every maximal run of separators is replaced by the empty string. *)
Definition remove_separators (s : str) : str :=
  filter (λ c, is_separator c = false) s.

Section AliasNormalizer.
(** [unicodedata.normalize("NFKC", _)], a function of Python's standard
    library. *)
Variable nfkc : str → str.

Definition normalize_for_merge (name : value) : str :=
  match name with
  | VStr name =>
      let s := nfkc (strip name) in
      let s := hira_to_kata <$> s in
      let s := remove_separators s in
      default s (ALIAS_MAP !! s)
  | _ => []
  end.
End AliasNormalizer.



(** NFKC on texts over ASCII, the hiragana letters KA (U+304B) and GA
    (U+304C) and the combining voiced sound mark U+3099: the only action of
    the normalisation there is the canonical composition of KA followed by
    the mark into GA. *)
Fixpoint nfkc_ka (s : str) : str :=
  match s with
  | c :: s' =>
      match s' with
      | d :: s'' =>
          if (c =? 0x304B) && (d =? 0x3099) then 0x304C :: nfkc_ka s''
          else c :: nfkc_ka s'
      | [] => [c]
      end
  | [] => []
  end.

Definition PAKE : str := [0x30d1; 0x30b1].
Definition KOUHO_SP_A : str := [0x5019; 0x88dc; 0x20; 0x41].
Definition KOUHO_A : str := [0x5019; 0x88dc; 0x41].

Local Close Scope N_scope.

(** ** Data model *)

(** A row of the candidates table: columns [id], [label], [active]. *)
Record Candidate := {
  cid : str;
  label : str;
  active : bool;
}.

(** A row of the votes table, in the canonical column order. *)
Record Vote := {
  voter_name : str;
  employee_id : str;
  first_id : str;
  second_id : str;
  third_id : str;
  time : str;
}.

#[global] Instance Candidate_eq_dec : EqDecision Candidate.
Proof. solve_decision. Defined.
#[global] Instance Vote_eq_dec : EqDecision Vote.
Proof. solve_decision. Defined.

(** ** CSV files and data frames

    A file is kept as the table it holds: the header row and the text of
    the cells of every line.  [read_csv(..., dtype=str,
    keep_default_na=False)], with which the votes are read, returns exactly
    these texts, and [to_csv(..., index=False)] stores the texts of a
    frame.  The candidates are read with type inference; their cells are
    kept as text too, and the one coercion the code asks for,
    [astype(bool)], is a parameter of the model. *)
Record csv := {
  header : list string;
  body : list (list str);
}.

#[global] Instance csv_eq_dec : EqDecision csv.
Proof. solve_decision. Defined.

(** [set(df.columns) >= set(need)] *)
Definition has_columns (need : list string) (df : csv) : bool :=
  forallb (λ c, bool_decide (c ∈ header df)) need.

Fixpoint column_index (c : string) (h : list string) : option nat :=
  match h with
  | [] => None
  | c' :: h' => if decide (c = c') then Some 0 else S <$> column_index c h'
  end.

(** The cell of [row] in column [c], when the frame has that column; a
    line shorter than the header is completed with empty cells. *)
Definition cell (df : csv) (c : string) (row : list str) : option str :=
  i ← column_index c (header df); Some (default [] (row !! i)).

(** [df.get(c, "")] on one row, also [df[c]] after [df[c] = ""] was run for
    an absent column. *)
Definition cell_or_empty (df : csv) (c : string) (row : list str) : str :=
  default [] (cell df c row).

(** [df[cs]] *)
Definition select (cs : list string) (df : csv) : csv :=
  {| header := cs;
     body := (λ row, (λ c, cell_or_empty df c row) <$> cs) <$> body df |}.

(** [df.assign(c=v)] for a column [c] the frame does not have. *)
Definition assign (c : string) (v : str) (df : csv) : csv :=
  {| header := header df ++ [c];
     body := (λ row, resize (length (header df)) [] row ++ [v]) <$> body df |}.

Definition CANDS_COLUMNS : list string := ["id"; "label"; "active"]%string.
Definition VOTES_COLUMNS : list string :=
  ["voter_name"; "employee_id"; "first_id"; "second_id"; "third_id"; "time"]%string.

(** [str(b)], the text [to_csv] writes for a Boolean. *)
Definition py_bool (b : bool) : str := if b then py "True" else py "False".

Definition csv_of_candidates (cands : list Candidate) : csv :=
  {| header := CANDS_COLUMNS;
     body := (λ c, [cid c; label c; py_bool (active c)]) <$> cands |}.

Definition csv_of_votes (votes : list Vote) : csv :=
  {| header := VOTES_COLUMNS;
     body := (λ v, [voter_name v; employee_id v; first_id v; second_id v;
                    third_id v; time v]) <$> votes |}.

(** ** The environment: the two files, the clock and the random source *)

Inductive file := CANDS_FILE | VOTES_FILE.

#[global] Instance file_eq_dec : EqDecision file.
Proof. solve_decision. Defined.

Record world := {
  cands_csv : option csv;      (* candidates.csv, when it exists *)
  votes_csv : option csv;      (* votes.csv, when it exists *)
  uuid_count : nat;            (* number of uuid4() calls so far *)
  now : str;                (* datetime.now().isoformat(timespec="seconds") *)
  written : list file;         (* the files written so far, oldest first *)
}.

Inductive exn := ValueError.

Inductive result (A : Type) :=
  | Ok (a : A)
  | Raise (e : exn).
Arguments Ok {A} a.
Arguments Raise {A} e.

(** Computations that read and write the environment and may raise. *)
Definition M (A : Type) : Type := world → result A * world.

#[global] Instance M_ret : MRet M := λ A a w, (Ok a, w).
#[global] Instance M_bind : MBind M := λ A B f m w,
  match m w with
  | (Ok a, w') => f a w'
  | (Raise e, w') => (Raise e, w')
  end.

Definition raise {A} (e : exn) : M A := λ w, (Raise e, w).

(** [pd.read_csv(f) if os.path.exists(f)] *)
Definition read_file (f : file) : M (option csv) := λ w,
  (Ok match f with CANDS_FILE => cands_csv w | VOTES_FILE => votes_csv w end, w).

(** The environment once [df] is stored in the file [f]. *)
Definition write_file (f : file) (df : csv) (w : world) : world :=
  {| cands_csv := if f is CANDS_FILE then Some df else cands_csv w;
     votes_csv := if f is VOTES_FILE then Some df else votes_csv w;
     uuid_count := uuid_count w;
     now := now w;
     written := written w ++ [f] |}.

(** [df.to_csv(f, index=False)] *)
Definition to_csv (f : file) (df : csv) : M unit := λ w,
  (Ok (), write_file f df w).

(** The environment after one more call of [uuid4]. *)
Definition next_uuid (w : world) : world :=
  {| cands_csv := cands_csv w; votes_csv := votes_csv w;
     uuid_count := S (uuid_count w); now := now w;
     written := written w |}.


Definition datetime_now : M str := λ w, (Ok (now w), w).

(** The value and the final environment of a run. *)
Definition run {A} (m : M A) (w : world) : result A * world := m w.

Section Store.
(** [uuid n] is [uuid.uuid4().hex[:8]] at the [n]-th call. *)
Variable uuid : nat → str.
(** The Boolean pandas makes of one parsed cell of the [active] column
    ([astype(bool)]). *)
Variable astype_bool : str → bool.

Definition uuid4_hex8 : M str := λ w,
  (Ok (uuid (uuid_count w)), next_uuid w).

(** [[uuid.uuid4().hex[:8] for _ in range(n)]] *)
Fixpoint fresh_ids (n : nat) : M (list str) :=
  match n with
  | 0 => mret []
  | S n' => i ← uuid4_hex8; ids ← fresh_ids n'; mret (i :: ids)
  end.

Definition DEFAULT_CANDIDATES : list str :=
  [ [0x5019; 0x88dc; 0x41]; [0x5019; 0x88dc; 0x42];
    [0x5019; 0x88dc; 0x43]; [0x5019; 0x88dc; 0x44] ]%N.

(** The frame of a canonical file: [df[["id", "label", "active"]]] with
    [active] coerced to Boolean. *)
Definition canonical_candidates (df : csv) : list Candidate :=
  (λ row, {| cid := cell_or_empty df "id" row;
             label := cell_or_empty df "label" row;
             active := astype_bool (cell_or_empty df "active" row) |})
  <$> body df.

(** The frame made of a legacy file: [name] becomes [label], [active] is
    kept when present and [True] otherwise, ids are new. *)
Definition legacy_candidates (df : csv) (ids : list str) : list Candidate :=
  zip_with (λ row i,
      {| cid := i;
         label := cell_or_empty df "name" row;
         active := from_option astype_bool true (cell df "active" row) |})
    (body df) ids.

(** First-run generation of the default candidates. *)
Definition generate_default_candidates : M (list Candidate) :=
  ids ← fresh_ids (length DEFAULT_CANDIDATES);
  let df := zip_with (λ i l, {| cid := i; label := l; active := true |})
              ids DEFAULT_CANDIDATES in
  to_csv CANDS_FILE (csv_of_candidates df);;
  mret df.

(** The default candidates, under the ids drawn in the environment [w]. *)
Definition default_candidates_at (w : world) : list Candidate :=
  zip_with (λ i l, {| cid := i; label := l; active := true |})
    (uuid <$> seq (uuid_count w) (length DEFAULT_CANDIDATES)) DEFAULT_CANDIDATES.

(** [label_to_id = {r.label: r.id for r in cands.itertuples()}] *)
Definition label_to_id (cands : list Candidate) : gmap str str :=
  foldl (λ m r, <[label r := cid r]> m) ∅ cands.

(** [cands.drop_duplicates(subset=["id"])]: the first row of each id. *)
Fixpoint drop_duplicates (cands : list Candidate) : list Candidate :=
  match cands with
  | [] => []
  | c :: cands' =>
      c :: filter (λ d, cid d ≠ cid c) (drop_duplicates cands')
  end.

Definition save_candidates (df : list Candidate) : M unit :=
  to_csv CANDS_FILE (csv_of_candidates (drop_duplicates df)).
End Store.

(** ** Aggregator ([aggregate], the same function in both files) *)

(** The value of one key of [stats]. *)
Record stat := {
  points : nat;
  first : nat;
  second : nat;
  third : nat;
}.

(** A row of the result: the label (column 候補) and the four counters. *)
Record row := {
  kouho : str;
  tally : stat;
}.

#[global] Instance stat_eq_dec : EqDecision stat.
Proof. solve_decision. Defined.
#[global] Instance row_eq_dec : EqDecision row.
Proof. solve_decision. Defined.

Definition zero_stat : stat :=
  {| points := 0; first := 0; second := 0; third := 0 |}.

(** [stats[f]["points"] += 3; stats[f]["first"] += 1] and its two
    siblings. *)
Definition bump_first (st : stat) : stat :=
  {| points := points st + 3; first := first st + 1;
     second := second st; third := third st |}.
Definition bump_second (st : stat) : stat :=
  {| points := points st + 2; first := first st;
     second := second st + 1; third := third st |}.
Definition bump_third (st : stat) : stat :=
  {| points := points st + 1; first := first st;
     second := second st; third := third st + 1 |}.

(** The body of the loop over the votes: each [if x in stats: ...] changes
    the entry of [x] when there is one. *)
Definition count_vote (stats : gmap str stat) (v : Vote) : gmap str stat :=
  let stats := alter bump_first (first_id v) stats in
  let stats := alter bump_second (second_id v) stats in
  alter bump_third (third_id v) stats.

(** [id_to_label = {r.id: r.label for r in cands.itertuples()}] *)
Definition id_to_label (cands : list Candidate) : gmap str str :=
  foldl (λ m r, <[cid r := label r]> m) ∅ cands.

(** The ids handed to [set(...)]: all of them, or those of the active
    rows. *)
Definition scope_ids (cands : list Candidate) (include_inactive : bool) : list str :=
  if include_inactive then cid <$> cands
  else cid <$> filter (λ c, active c = true) cands.

(** [f"[{cid}]"] *)
Definition bracket (c : str) : str := py "[" ++ c ++ py "]".

(** Python's order on text: lexicographic on the code points. *)
Fixpoint str_leb (a b : str) : bool :=
  match a, b with
  | [], _ => true
  | _ :: _, [] => false
  | x :: a', y :: b' => (x <? y)%N || ((x =? y)%N && str_leb a' b')
  end.

(** [r1] is not after [r2] for the keys of [sort_values]: [points],
    [first], [second], [third] descending, then the label ascending. *)
Definition row_le (r1 r2 : row) : Prop :=
  points (tally r2) < points (tally r1) ∨
  (points (tally r1) = points (tally r2) ∧
   (first (tally r2) < first (tally r1) ∨
    (first (tally r1) = first (tally r2) ∧
     (second (tally r2) < second (tally r1) ∨
      (second (tally r1) = second (tally r2) ∧
       (third (tally r2) < third (tally r1) ∨
        (third (tally r1) = third (tally r2) ∧
         str_leb (kouho r1) (kouho r2) = true))))))).

#[global] Instance row_le_dec : RelDecision row_le.
Proof. intros r1 r2. unfold row_le. apply _. Defined.

Section stable_sort.
Context {A : Type} (leb : A → A → bool).

Fixpoint insert_sorted (x : A) (l : list A) : list A :=
  match l with
  | [] => [x]
  | y :: l' => if leb x y then x :: l else y :: insert_sorted x l'
  end.

(** A stable sort: an element goes before the first one it is not
    after, so among equal keys the order of the input stays. *)
Definition stable_sort (l : list A) : list A := foldr insert_sorted [] l.
End stable_sort.

(** [df.sort_values([...], ascending=[False, False, False, False, True])]
    on a frame whose rows carry their index label; sorting on several
    columns is stable. *)
Definition sort_values (df : list (nat * row)) : list (nat * row) :=
  stable_sort (λ a b, bool_decide (row_le a.2 b.2)) df.

Section Aggregator.
(** [set_iter l] is the order in which Python iterates over [set(l)]. *)
Variable set_iter : list str → list str.

(** [stats] before the loop: a zero entry per id of the scope, in the
    iteration order of the set. *)
Definition init_stats (active_ids : list str) : gmap str stat :=
  list_to_map ((λ c, (c, zero_stat)) <$> active_ids).

(** [stats] after the loop over the votes. *)
Definition tally_votes (cands : list Candidate) (votes : list Vote)
    (include_inactive : bool) : gmap str stat :=
  let active_ids := set_iter (scope_ids cands include_inactive) in
  foldl count_vote (init_stats active_ids) votes.

(** [rows]: one per key of [stats], in the insertion order of the keys. *)
Definition aggregate_rows (cands : list Candidate) (votes : list Vote)
    (include_inactive : bool) : list row :=
  let id_to_label := id_to_label cands in
  let active_ids := set_iter (scope_ids cands include_inactive) in
  let stats := tally_votes cands votes include_inactive in
  omap (λ c, v ← stats !! c;
             Some {| kouho := default (bracket c) (id_to_label !! c);
                     tally := v |}) active_ids.

(** The sorted frame, each row still with its position in [rows]. *)
Definition aggregate_sorted (cands : list Candidate) (votes : list Vote)
    (include_inactive : bool) : list (nat * row) :=
  let rows := aggregate_rows cands votes include_inactive in
  sort_values (zip (seq 0 (length rows)) rows).

(** The result: the rows in sorted order under the index 1, 2, ...
    (an empty frame when there is no row). *)
Definition aggregate (cands : list Candidate) (votes : list Vote)
    (include_inactive : bool) : list (nat * row) :=
  let rows := aggregate_rows cands votes include_inactive in
  if rows is [] then []
  else
    let df := (aggregate_sorted cands votes include_inactive).*2 in
    zip (seq 1 (length df)) df.
End Aggregator.

(** ** MergeEngine: the steps shared by the add and the save handler *)

(** [votes[col] = votes[col].replace(old, new)] for the three id columns,
    on one row. *)
Definition replace_id (old new : str) (v : Vote) : Vote :=
  {| voter_name := voter_name v;
     employee_id := employee_id v;
     first_id := if decide (first_id v = old) then new else first_id v;
     second_id := if decide (second_id v = old) then new else second_id v;
     third_id := if decide (third_id v = old) then new else third_id v;
     time := time v |}.

(** The loop over the duplicate rows: the votes of each are repointed to
    [target], one duplicate after the other. *)
Definition repoint (dups : list Candidate) (target : str)
    (votes : list Vote) : list Vote :=
  foldl (λ votes r, replace_id (cid r) target <$> votes) votes dups.

(** [cands.loc[cands["id"] == target, ["label", "active"]] = [label_s, a]] *)
Definition set_label_active (target label_s : str) (a : bool)
    (cands : list Candidate) : list Candidate :=
  (λ c, if decide (cid c = target)
        then {| cid := cid c; label := label_s; active := a |} else c)
  <$> cands.

(** [cands[~cands["id"].isin(ids)]] *)
Definition remove_ids (ids : list str) (cands : list Candidate) : list Candidate :=
  filter (λ c, cid c ∉ ids) cands.

(** What a handler shows. *)
Inductive notice := st_error | st_warning | st_success.

(** ** [main.py] *)

Module main.
Section main.
Variable uuid : nat → str.
Variable astype_bool : str → bool.
Variable nfkc : str → str.

(** *** SchemaMigrator *)

Definition ensure_candidates_schema : M (list Candidate) :=
  f ← read_file CANDS_FILE;
  match f with
  | Some df =>
      if has_columns ["id"; "label"; "active"]%string df then
        mret (canonical_candidates astype_bool df)
      else if has_columns ["name"]%string df then
        ids ← fresh_ids uuid (length (body df));
        let df := legacy_candidates astype_bool df ids in
        to_csv CANDS_FILE (csv_of_candidates df);;
        mret df
      else
        (* no branch returns: control reaches the first-run generation *)
        generate_default_candidates uuid
  | None => generate_default_candidates uuid
  end.

(** The frame of a file that has the three [*_id] columns: the six
    columns in canonical order, an absent one filled with [""]. *)
Definition canonical_votes (df : csv) : list Vote :=
  (λ r, {| voter_name := cell_or_empty df "voter_name" r;
           employee_id := cell_or_empty df "employee_id" r;
           first_id := cell_or_empty df "first_id" r;
           second_id := cell_or_empty df "second_id" r;
           third_id := cell_or_empty df "third_id" r;
           time := cell_or_empty df "time" r |}) <$> body df.

(** [conv]: the frame made of a legacy file, whose [first], [second] and
    [third] columns hold labels. *)
Definition legacy_votes (cands : list Candidate) (df : csv) : list Vote :=
  let label_to_id := label_to_id cands in
  let map_label s := default [] (label_to_id !! s) in
  (λ r, {| voter_name := cell_or_empty df "voter_name" r;
           employee_id := cell_or_empty df "employee_id" r;
           first_id := map_label (cell_or_empty df "first" r);
           second_id := map_label (cell_or_empty df "second" r);
           third_id := map_label (cell_or_empty df "third" r);
           time := cell_or_empty df "time" r |}) <$> body df.

Definition ensure_votes_schema (cands : list Candidate) : M (list Vote) :=
  f ← read_file VOTES_FILE;
  match f with
  | Some df =>
      if has_columns ["first_id"; "second_id"; "third_id"]%string df then
        let df := canonical_votes df in
        to_csv VOTES_FILE (csv_of_votes df);;
        mret df
      else if has_columns ["first"; "second"; "third"]%string df then
        let conv := legacy_votes cands df in
        to_csv VOTES_FILE (csv_of_votes conv);;
        mret conv
      else mret []
  | None => mret []
  end.

Definition load_candidates : M (list Candidate) := ensure_candidates_schema.

Definition load_votes : M (list Vote) :=
  cands ← ensure_candidates_schema;
  ensure_votes_schema cands.

(** *** VoteStore *)

Definition append_vote (voter_name employee_id first_id second_id third_id : str)
    : M unit :=
  votes ← load_votes;
  t ← datetime_now;
  let new_row :=
    {| voter_name := strip voter_name;
       employee_id := strip employee_id;
       first_id := first_id;
       second_id := second_id;
       third_id := third_id;
       time := t |} in
  to_csv VOTES_FILE (csv_of_votes (votes ++ [new_row])).

(** The handler of the submit button of the vote page; a select box
    holds [None] until a candidate is chosen. *)
Definition vote_submit (voter_name employee_id : str)
    (first_id second_id third_id : option str) : M notice :=
  if bool_decide (voter_name = [] ∨ employee_id = []) then mret st_error
  else
    match first_id, second_id, third_id with
    | Some f, Some s, Some t =>
        if bool_decide (length (remove_dups [f; s; t]) < 3) then mret st_error
        else
          append_vote voter_name employee_id f s t;;
          mret st_success
    | _, _, _ => mret st_error
    end.

(** *** Admin page: add and save, with merge of synonyms *)

Definition merge_key (l : str) : str := normalize_for_merge nfkc (VStr l).

(** [conflict] of the add handler. *)
Definition add_conflict (label_s : str) (cands : list Candidate) : list Candidate :=
  filter (λ c, merge_key (label c) = merge_key label_s) cands.

(** The frames the add handler saves when [conflict] is [base :: dups]. *)
Definition add_merge (label_s : str) (base : Candidate) (dups : list Candidate)
    (cands : list Candidate) (votes : list Vote) : list Candidate * list Vote :=
  let base_id := cid base in
  let cands := set_label_active base_id label_s true cands in
  let votes := if votes is [] then votes else repoint dups base_id votes in
  let cands := remove_ids (cid <$> dups) cands in
  (cands, votes).

Definition admin_add (new_label : str) (cands : list Candidate)
    (votes : list Vote) : M notice :=
  let label_s := strip new_label in
  if label_s is [] then mret st_warning
  else
    match add_conflict label_s cands with
    | [] =>
        i ← uuid4_hex8 uuid;
        save_candidates (cands ++ [{| cid := i; label := label_s; active := true |}]);;
        mret st_success
    | base :: dups =>
        let '(cands, votes') := add_merge label_s base dups cands votes in
        save_candidates cands;;
        (if votes is [] then mret () else to_csv VOTES_FILE (csv_of_votes votes'));;
        mret st_success
    end.

(** [conflict] of the save handler of the row whose id is [c]. *)
Definition save_conflict (c label_s : str) (cands : list Candidate) : list Candidate :=
  filter (λ r, merge_key (label r) = merge_key label_s ∧ cid r ≠ c) cands.

(** The frames the save handler saves. *)
Definition save_merge (c label_s : str) (a : bool)
    (cands : list Candidate) (votes : list Vote) : list Candidate * list Vote :=
  let conflict := save_conflict c label_s cands in
  let cands := set_label_active c label_s a cands in
  let votes :=
    if votes is [] then votes
    else if conflict is [] then votes
    else repoint conflict c votes in
  let cands :=
    if conflict is [] then cands else remove_ids (cid <$> conflict) cands in
  (cands, votes).

Definition admin_save (c new_label : str) (a : bool)
    (cands : list Candidate) (votes : list Vote) : M notice :=
  let label_s := strip new_label in
  if label_s is [] then mret st_warning
  else
    let '(cands, votes') := save_merge c label_s a cands votes in
    save_candidates cands;;
    (if votes is [] then mret () else to_csv VOTES_FILE (csv_of_votes votes'));;
    mret st_success.

(** The toggle button of a row:
    [cands.loc[cands["id"] == row["id"], "active"] = not bool(row["active"])]
    and [save_candidates(cands)]. *)
Definition toggle_active (row : Candidate) (cands : list Candidate) : list Candidate :=
  (λ r, if decide (cid r = cid row)
        then {| cid := cid r; label := label r; active := negb (active row) |}
        else r) <$> cands.

Definition admin_toggle (row : Candidate) (cands : list Candidate) : M unit :=
  save_candidates (toggle_active row cands).


(** *** Vote page: the options of the three select boxes *)

(** [id_list]: the ids of the active rows, in their order. *)
Definition id_list (cands : list Candidate) : list str :=
  cid <$> filter (λ c, active c = true) cands.

(** [[None] + id_list] *)
Definition select_options (cands : list Candidate) : list (option str) :=
  None :: (Some <$> id_list cands).

(** *** Admin page: the list of the votes, with labels *)

(** [pandas.Series.str.zfill], a function of the library. *)
Variable zfill : nat → str → str.


End main.
End main.

(** ** [app.py]: the schema functions of the earlier version *)

Module app.
Section app.
Variable uuid : nat → str.
Variable astype_bool : str → bool.

Definition ensure_candidates_schema : M (list Candidate) :=
  f ← read_file CANDS_FILE;
  match f with
  | Some df =>
      if has_columns ["id"; "label"; "active"]%string df then
        mret (canonical_candidates astype_bool df)
      else if has_columns ["name"]%string df then
        ids ← fresh_ids uuid (length (body df));
        let df := legacy_candidates astype_bool df ids in
        to_csv CANDS_FILE (csv_of_candidates df);;
        mret df
      else raise ValueError
  | None => generate_default_candidates uuid
  end.

(** The votes frame has the columns of the file here; a label without
    candidate maps to [None], an empty cell once written. *)
Definition ensure_votes_schema (cands : list Candidate) : M csv :=
  f ← read_file VOTES_FILE;
  match f with
  | Some df =>
      if has_columns ["first_id"; "second_id"; "third_id"]%string df then
        mret (if bool_decide ("time"%string ∈ header df)
              then select ["first_id"; "second_id"; "third_id"; "time"]%string df
              else assign "time" [] df)
      else
        let label_to_id := label_to_id cands in
        if has_columns ["first"; "second"; "third"]%string df then
          let map_label s := default [] (label_to_id !! s) in
          let conv :=
            {| header := ["first_id"; "second_id"; "third_id"; "time"]%string;
               body := (λ r, [map_label (cell_or_empty df "first" r);
                              map_label (cell_or_empty df "second" r);
                              map_label (cell_or_empty df "third" r);
                              cell_or_empty df "time" r]) <$> body df |} in
          to_csv VOTES_FILE conv;;
          mret conv
        else
          mret {| header := ["first_id"; "second_id"; "third_id"; "time"]%string;
                  body := [] |}
  | None =>
      mret {| header := ["first_id"; "second_id"; "third_id"; "time"]%string;
              body := [] |}
  end.

Definition load_votes : M csv :=
  cands ← ensure_candidates_schema;
  ensure_votes_schema cands.

(** *** Admin page: the merge of [app.py]

    The add and the save handler of [app.py] go through the rows of
    [conflict] one by one: the votes of the row are repointed, when there
    are votes, and the row is dropped from the candidates
    ([cands = cands[cands["id"] != dup_id]]). *)
Definition merge_loop (target : str) (dups : list Candidate)
    (cands : list Candidate) (votes : list Vote) : list Candidate * list Vote :=
  foldl (λ (st : list Candidate * list Vote) r,
           let dup_id := cid r in
           let votes := if st.2 is [] then st.2
                        else replace_id dup_id target <$> st.2 in
           (filter (λ c, cid c ≠ dup_id) st.1, votes))
        (cands, votes) dups.

(** The frames the add handler saves when [conflict] is [base :: dups]. *)
Definition add_merge (label_s : str) (base : Candidate) (dups : list Candidate)
    (cands : list Candidate) (votes : list Vote) : list Candidate * list Vote :=
  let base_id := cid base in
  let cands := set_label_active base_id label_s true cands in
  merge_loop base_id dups cands votes.

(** The frames the save handler saves, [conflict] being the rows of
    another id with the key of the new label. *)
Definition save_merge (conflict : list Candidate) (c label_s : str) (a : bool)
    (cands : list Candidate) (votes : list Vote) : list Candidate * list Vote :=
  let cands := set_label_active c label_s a cands in
  merge_loop c conflict cands votes.
End app.
End app.

(** ** Reference quantities of the aggregation *)

(** The number of votes whose column [slot] holds [c]. *)
Definition count_slot (slot : Vote → str) (c : str) (votes : list Vote) : nat :=
  length (filter (λ v, slot v = c) votes).

(** What the votes award to the id [c]: 3, 2 and 1 points per first,
    second and third place, and the three counts. *)
Definition award (c : str) (votes : list Vote) : stat :=
  {| points := 3 * count_slot first_id c votes + 2 * count_slot second_id c votes
               + count_slot third_id c votes;
     first := count_slot first_id c votes;
     second := count_slot second_id c votes;
     third := count_slot third_id c votes |}.

(** The row of the id [c]. *)
Definition row_of (cands : list Candidate) (votes : list Vote) (c : str) : row :=
  {| kouho := default (bracket c) (id_to_label cands !! c);
     tally := award c votes |}.

(** [st] with the credit of [f] first, [s] second and [t] third places. *)
Definition credit (f s t : nat) (st : stat) : stat :=
  {| points := points st + (3 * f + 2 * s + t);
     first := first st + f;
     second := second st + s;
     third := third st + t |}.

(** The order of a sorted frame that keeps the index labels: by the keys,
    and by the position before the sort where all the keys tie. *)
Definition stable_le (a b : nat * row) : Prop :=
  row_le a.2 b.2 ∧ (row_le b.2 a.2 → a.1 < b.1).


(** ** Sample data *)

Definition cand_a : Candidate :=
  {| cid := py "a1"; label := KOUHO_A; active := true |}.
Definition cand_b : Candidate :=
  {| cid := py "b2"; label := KOUHO_SP_A; active := true |}.
Definition cand_c : Candidate :=
  {| cid := py "c3"; label := PAKE; active := false |}.
Definition cand_d : Candidate :=
  {| cid := py "d4"; label := py "D"; active := true |}.

Definition vote_abc : Vote :=
  {| voter_name := py "Yamada"; employee_id := py "00042";
     first_id := py "a1"; second_id := py "b2"; third_id := py "c3";
     time := py "2024-04-01T09:00:00" |}.
Definition vote_bad : Vote :=
  {| voter_name := py "Sato"; employee_id := py "7";
     first_id := py "b2"; second_id := py "a1"; third_id := py "d4";
     time := py "2024-04-01T09:05:00" |}.

(** ** Reference quantities of the merge *)





(** ** Reference quantities of the vote store *)

(** The row [append_vote] adds. *)
Definition new_row (voter_name employee_id f s t now : str) : Vote :=
  {| voter_name := strip voter_name; employee_id := strip employee_id;
     first_id := f; second_id := s; third_id := t; time := now |}.

(** ** Reference quantities of the admin handlers *)


(** ** Reference quantities of the two dictionaries *)

(** The id of the last candidate labelled [l], [""] when there is none. *)
Definition id_of_label (cands : list Candidate) (l : str) : str :=
  default [] (cid <$> last (filter (λ c, label c = l) cands)).

(** The label of the last candidate of id [i], when there is one. *)
Definition label_of_id (cands : list Candidate) (i : str) : option str :=
  label <$> last (filter (λ c, cid c = i) cands).

(** ** Instances of the library parameters, to run the model *)

(** An iteration order of a set: first occurrences, in order. *)
Definition first_seen (l : list str) : list str := remove_dups l.

(** A source of ids: "u0", "u1", ... *)
Definition uuid_counter (n : nat) : str := py "u" ++ [(48 + N.of_nat n)%N].

(** A coercion of cells to Booleans. *)
Definition truthy (c : str) : bool := bool_decide (c ≠ py "False" ∧ c ≠ py "0").

(** A store with canonical files. *)
Definition world_canonical : world :=
  {| cands_csv := Some (csv_of_candidates [cand_a; cand_b; cand_c; cand_d]);
     votes_csv := Some (csv_of_votes [vote_abc]);
     uuid_count := 0;
     now := py "2024-04-01T10:00:00";
     written := [] |}.

(** A store whose files have unknown columns. *)
Definition world_unknown : world :=
  {| cands_csv := Some {| header := ["title"; "enabled"]%string;
                          body := [[py "Alpha"; py "yes"]] |};
     votes_csv := Some {| header := ["who"; "choice"]%string;
                          body := [[py "Yamada"; py "Alpha"]] |};
     uuid_count := 0;
     now := py "2024-04-01T10:00:00";
     written := [] |}.

(** A store with legacy files: candidates by name, votes by label. *)
Definition world_legacy : world :=
  {| cands_csv := Some {| header := ["name"; "active"]%string;
                          body := [[KOUHO_A; py "True"]; [PAKE; py "False"]] |};
     votes_csv := Some {| header := ["employee_id"; "first"; "second"; "third"]%string;
                          body := [[py "00042"; KOUHO_A; PAKE; py "?"]] |};
     uuid_count := 0;
     now := py "2024-04-01T10:00:00";
     written := [] |}.

(** * Verification *)

Local Open Scope N_scope.

(** *** Facts on the normaliser *)

Lemma lstrip_all_space s : forallb is_space s = true → lstrip s = [].
Proof.
  induction s as [|c s IH]; simpl; [done|].
  intros [-> Hs]%andb_prop. auto.
Qed.

Lemma strip_all_space s : forallb is_space s = true → strip s = [].
Proof. intros Hs. unfold strip. by rewrite lstrip_all_space. Qed.

Ltac split_bools :=
  repeat match goal with
    | H : _ || _ = true |- _ => apply orb_prop in H as [H|H]
    | H : _ && _ = true |- _ => apply andb_prop in H as [? ?]
    | H : _ || _ = false |- _ => apply orb_false_elim in H as [? ?]
    | H : _ && _ = false |- _ => apply andb_false_iff in H as [H|H]
    | H : (_ <=? _) = true |- _ => apply N.leb_le in H
    | H : (_ <=? _) = false |- _ => apply N.leb_gt in H
    | H : (_ =? _) = true |- _ => apply N.eqb_eq in H
    | H : (_ =? _) = false |- _ => apply N.eqb_neq in H
    end.








Local Close Scope N_scope.

(** ** The aggregation *)

Lemma count_slot_cons slot c v votes :
  count_slot slot c (v :: votes) =
  (if decide (slot v = c) then 1 else 0) + count_slot slot c votes.
Proof. unfold count_slot. rewrite filter_cons. by case_decide. Qed.


Lemma count_vote_lookup stats v c :
  count_vote stats v !! c =
  credit (if decide (first_id v = c) then 1 else 0)
         (if decide (second_id v = c) then 1 else 0)
         (if decide (third_id v = c) then 1 else 0) <$> stats !! c.
Proof.
  unfold count_vote. destruct v as [vn ve vf vs vt vtm]; simpl.
  repeat match goal with
    | |- context [alter ?f ?i ?m !! ?j] =>
        destruct (decide (i = j)) as [?|?];
        [simplify_eq; rewrite lookup_alter_eq | rewrite lookup_alter_ne by done]
    end;
  (destruct (stats !! _) as [[p f s t]|]; simpl; [|done]);
  repeat case_decide; try done;
  unfold credit, bump_first, bump_second, bump_third; simpl; do 2 f_equal; lia.
Qed.

Lemma foldl_count_vote_lookup votes stats c :
  foldl count_vote stats votes !! c =
  credit (count_slot first_id c votes) (count_slot second_id c votes)
         (count_slot third_id c votes) <$> stats !! c.
Proof.
  revert stats. induction votes as [|v votes IH]; intros stats.
  - simpl. destruct (stats !! c) as [[p f s t]|]; simpl; [|done].
    unfold credit, count_slot; simpl. do 2 f_equal; lia.
  - simpl. rewrite IH, count_vote_lookup, !count_slot_cons.
    destruct (stats !! c) as [[p f s t]|]; simpl; [|done].
    unfold credit; simpl. do 2 f_equal; lia.
Qed.

Lemma init_stats_lookup ids c :
  init_stats ids !! c = if decide (c ∈ ids) then Some zero_stat else None.
Proof.
  unfold init_stats. case_decide as Hc.
  - apply elem_of_list_to_map'.
    + intros st' _ (c' & [= _ <-] & _)%list_elem_of_fmap. done.
    + apply list_elem_of_fmap. by exists c.
  - apply not_elem_of_list_to_map. rewrite <-list_fmap_compose.
    by rewrite list_fmap_id.
Qed.

Section aggregator_facts.
Context (set_iter : list str → list str).
Hypothesis set_iter_perm : ∀ l, set_iter l ≡ₚ remove_dups l.

Lemma elem_of_set_iter l c : c ∈ set_iter l ↔ c ∈ l.
Proof. by rewrite set_iter_perm, elem_of_remove_dups. Qed.

Lemma tally_votes_lookup cands votes inc c :
  tally_votes set_iter cands votes inc !! c =
  if decide (c ∈ scope_ids cands inc) then Some (award c votes) else None.
Proof.
  unfold tally_votes. rewrite foldl_count_vote_lookup, init_stats_lookup.
  case_decide as Hc; case_decide as Hc'; rewrite elem_of_set_iter in Hc;
    done.
Qed.

Lemma aggregate_rows_eq cands votes inc :
  aggregate_rows set_iter cands votes inc =
  row_of cands votes <$> set_iter (scope_ids cands inc).
Proof.
  unfold aggregate_rows.
  assert (Hin : ∀ c, c ∈ set_iter (scope_ids cands inc) → c ∈ scope_ids cands inc)
    by (intros c; by rewrite elem_of_set_iter).
  induction (set_iter (scope_ids cands inc)) as [|c l IH]; [done|].
  simpl. rewrite tally_votes_lookup, decide_True by (apply Hin; left).
  simpl. f_equal. apply IH. intros c' Hc'. apply Hin. by right.
Qed.
End aggregator_facts.

(** ** The order of the ranking *)

Lemma str_leb_refl a : str_leb a a = true.
Proof.
  induction a as [|x a IH]; simpl; [done|].
  by rewrite N.eqb_refl, IH, orb_true_r.
Qed.

Lemma str_leb_total a b : str_leb a b = true ∨ str_leb b a = true.
Proof.
  revert b. induction a as [|x a IH]; intros [|y b]; simpl; auto.
  destruct (N.lt_trichotomy x y) as [Hxy|[->|Hxy]].
  - left. apply orb_true_iff. left. by apply N.ltb_lt.
  - rewrite N.eqb_refl, N.ltb_irrefl. simpl. apply IH.
  - right. apply orb_true_iff. left. by apply N.ltb_lt.
Qed.

Lemma str_leb_cons x a y b :
  str_leb (x :: a) (y :: b) = true ↔ (x < y)%N ∨ (x = y ∧ str_leb a b = true).
Proof.
  simpl. rewrite orb_true_iff, andb_true_iff, N.ltb_lt, N.eqb_eq. done.
Qed.

Lemma str_leb_trans a b c :
  str_leb a b = true → str_leb b c = true → str_leb a c = true.
Proof.
  revert b c. induction a as [|x a IH]; intros [|y b] [|z c]; try done.
  rewrite !str_leb_cons. intros [?|[-> ?]] [?|[-> ?]]; eauto with lia.
Qed.

Lemma str_leb_antisym a b :
  str_leb a b = true → str_leb b a = true → a = b.
Proof.
  revert b. induction a as [|x a IH]; intros [|y b]; try done.
  rewrite !str_leb_cons. intros [?|[-> ?]] [?|[? ?]]; try lia.
  f_equal. by apply IH.
Qed.

(** One level of a descending lexicographic order. *)
Lemma lex_total (a b : nat) (P Q : Prop) :
  P ∨ Q → (b < a ∨ a = b ∧ P) ∨ (a < b ∨ b = a ∧ Q).
Proof. destruct (Nat.lt_trichotomy a b) as [?|[?|?]]; intuition lia. Qed.

Lemma lex_trans (a b c : nat) (P Q R : Prop) :
  (P → Q → R) →
  b < a ∨ a = b ∧ P → c < b ∨ b = c ∧ Q → c < a ∨ a = c ∧ R.
Proof. intros HR [?|[? ?]] [?|[? ?]]; [left; lia..|right]. split; [lia|auto]. Qed.

Lemma lex_antisym (a b : nat) (P Q : Prop) :
  b < a ∨ a = b ∧ P → a < b ∨ b = a ∧ Q → a = b ∧ P ∧ Q.
Proof. intros [?|[? ?]] [?|[? ?]]; try lia. done. Qed.

#[global] Instance row_le_total : Total row_le.
Proof.
  intros r1 r2. unfold row_le.
  do 4 apply lex_total. apply str_leb_total.
Qed.

#[global] Instance row_le_trans : Transitive row_le.
Proof.
  intros r1 r2 r3. unfold row_le.
  do 4 apply lex_trans. apply str_leb_trans.
Qed.

#[global] Instance row_le_antisym : AntiSymm (=) row_le.
Proof.
  intros [k1 [p1 f1 s1 t1]] [k2 [p2 f2 s2 t2]]. unfold row_le; simpl.
  intros H12 H21.
  destruct (lex_antisym _ _ _ _ H12 H21) as (-> & Ha & Hb).
  destruct (lex_antisym _ _ _ _ Ha Hb) as (-> & Hc & Hd).
  destruct (lex_antisym _ _ _ _ Hc Hd) as (-> & He & Hf).
  destruct (lex_antisym _ _ _ _ He Hf) as (-> & Hk & Hk2).
  by rewrite (str_leb_antisym k1 k2).
Qed.

(** ** The stable sort *)

Section stable_sort_facts.
Context {A : Type} (leb : A → A → bool).

Lemma insert_sorted_perm x l : insert_sorted leb x l ≡ₚ x :: l.
Proof.
  induction l as [|y l IH]; simpl; [done|].
  case_match; [done|]. rewrite IH. apply Permutation_swap.
Qed.

Lemma stable_sort_perm l : stable_sort leb l ≡ₚ l.
Proof.
  induction l as [|x l IH]; simpl; [done|].
  by rewrite insert_sorted_perm, IH.
Qed.

Lemma stable_sort_length l : length (stable_sort leb l) = length l.
Proof. by rewrite stable_sort_perm. Qed.
End stable_sort_facts.

(** Sorting a frame whose index labels increase gives a frame ordered by
    the keys first and by the labels among tied keys. *)
Lemma insert_sorted_stable (x : nat * row) (l : list (nat * row)) :
  Forall (λ y, x.1 < y.1) l →
  StronglySorted stable_le l →
  StronglySorted stable_le (insert_sorted (λ a b, bool_decide (row_le a.2 b.2)) x l).
Proof.
  intros Hx Hl. induction Hl as [|y l Hl IH Hy]; simpl.
  { repeat constructor. }
  apply Forall_cons in Hx as [Hxy Hx].
  case_bool_decide as Hle.
  - apply SSorted_cons; [apply SSorted_cons; [exact Hl|exact Hy]|].
    apply Forall_cons. split; [by split|].
    eapply Forall_impl; [apply Forall_and; split; [exact Hy|exact Hx]|].
    intros z [[Hyz _] Hxz]. split; [by etrans|done].
  - apply SSorted_cons; [apply IH; exact Hx|].
    rewrite insert_sorted_perm. apply Forall_cons. split; [|done].
    split; [|done]. by destruct (total row_le x.2 y.2).
Qed.

Lemma sort_values_stable (df : list (nat * row)) :
  StronglySorted lt df.*1 → StronglySorted stable_le (sort_values df).
Proof.
  unfold sort_values. induction df as [|x df IH]; simpl.
  { constructor. }
  intros [Hdf Hx]%StronglySorted_inv. apply insert_sorted_stable; [|auto].
  rewrite stable_sort_perm. rewrite Forall_fmap in Hx. exact Hx.
Qed.

(** Any stable sort by these keys returns the frame [sort_values] returns:
    a frame in that order is determined by its rows. *)
Lemma sort_values_unique (df out : list (nat * row)) :
  StronglySorted lt df.*1 → out ≡ₚ df → StronglySorted stable_le out →
  out = sort_values df.
Proof.
  intros Hdf Hperm Hout.
  apply (StronglySorted_unique_strong stable_le); [|done|by apply sort_values_stable|].
  - intros x1 x2 _ _ [H12 Hlt12] [H21 Hlt21].
    specialize (Hlt12 H21). specialize (Hlt21 H12). lia.
  - unfold sort_values. by rewrite stable_sort_perm.
Qed.

Lemma StronglySorted_seq start n : StronglySorted lt (seq start n).
Proof.
  revert start. induction n as [|n IH]; intros start; simpl; constructor; [done|].
  apply Forall_forall. intros i Hi%elem_of_seq. lia.
Qed.

Lemma stable_le_row_le (df : list (nat * row)) :
  StronglySorted stable_le df → StronglySorted row_le df.*2.
Proof.
  induction 1 as [|a df _ IH Ha]; simpl; constructor; [done|].
  apply Forall_fmap. eapply Forall_impl; [exact Ha|]. by intros b [? _].
Qed.

(** ** The result of [aggregate] *)

Section aggregate_facts.
Context (set_iter : list str → list str).
Hypothesis set_iter_perm : ∀ l, set_iter l ≡ₚ remove_dups l.

Lemma aggregate_sorted_perm cands votes inc :
  aggregate_sorted set_iter cands votes inc ≡ₚ
  zip (seq 0 (length (aggregate_rows set_iter cands votes inc)))
      (aggregate_rows set_iter cands votes inc).
Proof. unfold aggregate_sorted, sort_values. apply stable_sort_perm. Qed.

Lemma aggregate_sorted_snd cands votes inc :
  (aggregate_sorted set_iter cands votes inc).*2 ≡ₚ
  row_of cands votes <$> remove_dups (scope_ids cands inc).
Proof.
  rewrite aggregate_sorted_perm, snd_zip by (by rewrite length_seq).
  by rewrite aggregate_rows_eq, set_iter_perm.
Qed.

Lemma aggregate_eq_zip cands votes inc :
  aggregate set_iter cands votes inc =
  zip (seq 1 (length (aggregate_sorted set_iter cands votes inc)))
      (aggregate_sorted set_iter cands votes inc).*2.
Proof.
  unfold aggregate. rewrite length_fmap.
  destruct (aggregate_rows set_iter cands votes inc) eqn:Hrows; [|done].
  unfold aggregate_sorted. by rewrite Hrows.
Qed.

Lemma aggregate_snd cands votes inc :
  (aggregate set_iter cands votes inc).*2 =
  (aggregate_sorted set_iter cands votes inc).*2.
Proof.
  rewrite aggregate_eq_zip. apply snd_zip. by rewrite length_seq, length_fmap.
Qed.

Lemma aggregate_fst cands votes inc :
  (aggregate set_iter cands votes inc).*1 =
  seq 1 (length (aggregate set_iter cands votes inc)).
Proof.
  rewrite aggregate_eq_zip at 1.
  rewrite fst_zip by (by rewrite length_seq, length_fmap).
  f_equal. by rewrite <-(length_fmap snd (aggregate _ _ _ _)), aggregate_snd, length_fmap.
Qed.

Lemma aggregate_sorted_stable cands votes inc :
  StronglySorted stable_le (aggregate_sorted set_iter cands votes inc).
Proof.
  apply sort_values_stable. rewrite fst_zip by (by rewrite length_seq).
  apply StronglySorted_seq.
Qed.

Lemma aggregate_sorted_index cands votes inc :
  Forall (λ a, aggregate_rows set_iter cands votes inc !! a.1 = Some a.2)
    (aggregate_sorted set_iter cands votes inc).
Proof.
  rewrite aggregate_sorted_perm. apply Forall_forall. intros [i r] Hir.
  apply list_elem_of_lookup in Hir as [j Hj].
  apply lookup_zip_with_Some in Hj as (i' & r' & [= <- <-] & Hi & Hr).
  apply lookup_seq in Hi as [-> _]. done.
Qed.
End aggregate_facts.

Lemma aggregate_set_iter_irrelevant set_iter1 set_iter2 cands votes inc :
  (∀ l, set_iter1 l ≡ₚ remove_dups l) →
  (∀ l, set_iter2 l ≡ₚ remove_dups l) →
  aggregate set_iter1 cands votes inc = aggregate set_iter2 cands votes inc.
Proof.
  intros H1 H2.
  assert ((aggregate_sorted set_iter1 cands votes inc).*2 =
          (aggregate_sorted set_iter2 cands votes inc).*2) as Heq.
  { apply (StronglySorted_unique row_le).
    - by apply stable_le_row_le, aggregate_sorted_stable.
    - by apply stable_le_row_le, aggregate_sorted_stable.
    - by rewrite !aggregate_sorted_snd. }
  rewrite !aggregate_eq_zip, Heq.
  by rewrite <-!(length_fmap snd (aggregate_sorted _ _ _ _)), Heq.
Qed.





(** C4 (as amended).  The result is sorted descending by points, then by
    first, second and third count, then ascending by label, and by nothing
    else; its index is the 1-based position; it holds the row of each id in
    scope once; the sort is stable: rows that tie on the five keys stay in
    the order of their enumeration before the sort; the result does not
    depend on that enumeration (the iteration order of the set of ids); an
    empty scope yields an empty result; an empty vote set yields one row of
    zero counters per id in scope.  The function is total. *)
Theorem aggregate_ranking
    (set_iter : list str → list str)
    (Hset : ∀ l, set_iter l ≡ₚ remove_dups l)
    (cands : list Candidate) (votes : list Vote) (include_inactive : bool) :
  let res := aggregate set_iter cands votes include_inactive in
  let sorted := aggregate_sorted set_iter cands votes include_inactive in
  let rows := aggregate_rows set_iter cands votes include_inactive in
  let scope := scope_ids cands include_inactive in
  StronglySorted row_le res.*2 ∧
  res.*1 = seq 1 (length res) ∧
  res.*2 ≡ₚ row_of cands votes <$> remove_dups scope ∧
  (res.*2 = sorted.*2 ∧ StronglySorted stable_le sorted ∧
   Forall (λ a, rows !! a.1 = Some a.2) sorted) ∧
  (∀ set_iter', (∀ l, set_iter' l ≡ₚ remove_dups l) →
     aggregate set_iter' cands votes include_inactive = res) ∧
  (scope = [] → res = []) ∧
  (votes = [] →
     length res = length (remove_dups scope) ∧
     Forall (λ r, tally r = zero_stat) res.*2).
Proof.
  intros res sorted rows scope.
  assert (res.*2 ≡ₚ row_of cands votes <$> remove_dups scope) as Hperm.
  { unfold res. rewrite aggregate_snd. by apply aggregate_sorted_snd. }
  assert (length res = length (remove_dups scope)) as Hlen.
  { by rewrite <-(length_fmap snd res), Hperm, length_fmap. }
  split_and!.
  - unfold res. rewrite aggregate_snd.
    by apply stable_le_row_le, aggregate_sorted_stable.
  - by apply aggregate_fst.
  - exact Hperm.
  - by apply aggregate_snd.
  - by apply aggregate_sorted_stable.
  - by apply aggregate_sorted_index.
  - intros set_iter' Hset'. by apply aggregate_set_iter_irrelevant.
  - intros Hscope. rewrite Hscope in Hlen. by destruct res.
  - intros ->. split; [exact Hlen|].
    rewrite Hperm. apply Forall_fmap, Forall_forall. by intros c _.
Qed.

Lemma aggregate_ranking_witness :
  aggregate first_seen [cand_a; cand_b; cand_c] [vote_abc; vote_bad] true =
  [ (1, {| kouho := KOUHO_SP_A;
           tally := {| points := 5; first := 1; second := 1; third := 0 |} |});
    (2, {| kouho := KOUHO_A;
           tally := {| points := 5; first := 1; second := 1; third := 0 |} |});
    (3, {| kouho := PAKE;
           tally := {| points := 1; first := 0; second := 0; third := 1 |} |}) ] ∧
  StronglySorted row_le
    (aggregate first_seen [cand_a; cand_b; cand_c] [vote_abc; vote_bad] true).*2.
Proof.
  split; [vm_compute; reflexivity|].
  apply (aggregate_ranking first_seen (λ l, reflexivity (remove_dups l))).
Defined.

(** With one candidate and no vote the result is the row of that candidate
    with zero counters, not an empty frame. *)
Lemma aggregate_no_votes_counterexample :
  aggregate first_seen [cand_a] [] true =
    [(1, {| kouho := KOUHO_A; tally := zero_stat |})] ∧
  aggregate first_seen [cand_a] [] true ≠ [].
Proof. split; [vm_compute; reflexivity|vm_compute; discriminate]. Qed.

(** ** The merge *)










Section merge_facts.
Context (nfkc : str → str).





Lemma remove_ids_nil cands : remove_ids [] cands = cands.
Proof.
  unfold remove_ids. induction cands as [|c cands IH]; [done|].
  rewrite filter_cons, decide_True by apply not_elem_of_nil. by rewrite IH.
Qed.

End merge_facts.






(** ** Merge safety *)











(** ** The schema migration *)

Lemma run_bind {A B} (m : M A) (k : A → M B) w :
  run (m ≫= k) w =
  match run m w with
  | (Ok a, w') => run (k a) w'
  | (Raise e, w') => (Raise e, w')
  end.
Proof. done. Qed.

Lemma run_ret {A} (a : A) w : run (mret a) w = (Ok a, w).
Proof. done. Qed.

Lemma run_read_file f w :
  run (read_file f) w =
  (Ok match f with CANDS_FILE => cands_csv w | VOTES_FILE => votes_csv w end, w).
Proof. done. Qed.

Lemma run_to_csv f df w : run (to_csv f df) w = (Ok (), write_file f df w).
Proof. done. Qed.

(** The calls of [uuid4] change the counter only. *)
Lemma iter_next_uuid n w :
  cands_csv (Nat.iter n next_uuid w) = cands_csv w ∧
  votes_csv (Nat.iter n next_uuid w) = votes_csv w ∧
  now (Nat.iter n next_uuid w) = now w ∧
  written (Nat.iter n next_uuid w) = written w ∧
  uuid_count (Nat.iter n next_uuid w) = n + uuid_count w.
Proof.
  induction n as [|n (?&?&?&?&?)]; [done|]. simpl. split_and!; try done.
  by f_equal.
Qed.

Lemma run_uuid4_hex8 uuid w :
  run (uuid4_hex8 uuid) w = (Ok (uuid (uuid_count w)), next_uuid w).
Proof. done. Qed.

Lemma run_datetime_now w : run datetime_now w = (Ok (now w), w).
Proof. done. Qed.

Lemma run_raise {A} e w : run (raise (A:=A) e) w = (Raise e, w).
Proof. done. Qed.

(** One step of evaluation of a computation. *)
Ltac run_step :=
  progress (rewrite ?run_bind, ?run_ret, ?run_read_file, ?run_to_csv,
              ?run_uuid4_hex8, ?run_datetime_now, ?run_raise;
            cbv beta match).

Section schema_facts.
Context (uuid : nat → str) (astype_bool : str → bool).

Lemma fresh_ids_run n w :
  run (fresh_ids uuid n) w =
  (Ok (uuid <$> seq (uuid_count w) n), Nat.iter n next_uuid w).
Proof.
  revert w. induction n as [|n IH]; intros w; [done|].
  cbn [fresh_ids]. do 2 run_step. rewrite IH. run_step.
  by rewrite Nat.iter_succ_r.
Qed.

Lemma generate_default_candidates_run w :
  run (generate_default_candidates uuid) w =
  (Ok (default_candidates_at uuid w),
   write_file CANDS_FILE (csv_of_candidates (default_candidates_at uuid w))
     (Nat.iter (length DEFAULT_CANDIDATES) next_uuid w)).
Proof.
  unfold generate_default_candidates.
  run_step. rewrite fresh_ids_run. by repeat run_step.
Qed.

(** [main.ensure_candidates_schema] on a canonical file: the frame is
    returned and nothing is written. *)
Lemma main_ensure_candidates_canonical w df :
  cands_csv w = Some df →
  has_columns ["id"; "label"; "active"]%string df = true →
  run (main.ensure_candidates_schema uuid astype_bool) w =
    (Ok (canonical_candidates astype_bool df), w).
Proof.
  intros Hf Hc. unfold main.ensure_candidates_schema.
  run_step. by rewrite Hf, Hc.
Qed.

Lemma main_ensure_candidates_legacy w df :
  cands_csv w = Some df →
  has_columns ["id"; "label"; "active"]%string df = false →
  has_columns ["name"]%string df = true →
  let cands := legacy_candidates astype_bool df
                 (uuid <$> seq (uuid_count w) (length (body df))) in
  run (main.ensure_candidates_schema uuid astype_bool) w =
    (Ok cands, write_file CANDS_FILE (csv_of_candidates cands)
                 (Nat.iter (length (body df)) next_uuid w)).
Proof.
  intros Hf Hc Hn. unfold main.ensure_candidates_schema.
  run_step. rewrite Hf, Hc, Hn. run_step. rewrite fresh_ids_run.
  by repeat run_step.
Qed.

(** A present file of neither shape: control falls through to the
    first-run generation. *)
Lemma main_ensure_candidates_unknown w df :
  cands_csv w = Some df →
  has_columns ["id"; "label"; "active"]%string df = false →
  has_columns ["name"]%string df = false →
  run (main.ensure_candidates_schema uuid astype_bool) w =
    run (generate_default_candidates uuid) w.
Proof.
  intros Hf Hc Hn. unfold main.ensure_candidates_schema.
  run_step. by rewrite Hf, Hc, Hn.
Qed.

Lemma main_ensure_candidates_absent w :
  cands_csv w = None →
  run (main.ensure_candidates_schema uuid astype_bool) w =
    run (generate_default_candidates uuid) w.
Proof.
  intros Hf. unfold main.ensure_candidates_schema.
  run_step. by rewrite Hf.
Qed.

Lemma app_ensure_candidates_unknown w df :
  cands_csv w = Some df →
  has_columns ["id"; "label"; "active"]%string df = false →
  has_columns ["name"]%string df = false →
  run (app.ensure_candidates_schema uuid astype_bool) w = (Raise ValueError, w).
Proof.
  intros Hf Hc Hn. unfold app.ensure_candidates_schema.
  run_step. by rewrite Hf, Hc, Hn.
Qed.

(** [main.ensure_candidates_schema] never raises; it leaves a canonical
    candidates file and does not touch the votes file. *)
Lemma main_ensure_candidates_run w :
  ∃ cands w', run (main.ensure_candidates_schema uuid astype_bool) w = (Ok cands, w') ∧
    votes_csv w' = votes_csv w ∧ now w' = now w ∧
    (∃ df', cands_csv w' = Some df' ∧
            has_columns ["id"; "label"; "active"]%string df' = true) ∧
    (w' = w ∨ written w' = written w ++ [CANDS_FILE]).
Proof.
  destruct (cands_csv w) as [df|] eqn:Hf;
    [destruct (has_columns ["id"; "label"; "active"]%string df) eqn:Hc;
     [|destruct (has_columns ["name"]%string df) eqn:Hn]|].
  - eexists _, _. split; [by apply main_ensure_candidates_canonical|].
    split_and!; eauto.
  - eexists _, _. split; [by apply main_ensure_candidates_legacy|].
    destruct (iter_next_uuid (length (body df)) w) as (?&?&?&Hw&?).
    simpl. split_and!; try (right; by rewrite Hw); eauto.
  - eexists _, _. split.
    { erewrite main_ensure_candidates_unknown by done.
      apply generate_default_candidates_run. }
    destruct (iter_next_uuid (length DEFAULT_CANDIDATES) w) as (?&?&?&Hw&?).
    simpl. split_and!; try (right; by rewrite Hw); eauto.
  - eexists _, _. split.
    { rewrite main_ensure_candidates_absent by done.
      apply generate_default_candidates_run. }
    destruct (iter_next_uuid (length DEFAULT_CANDIDATES) w) as (?&?&?&Hw&?).
    simpl. split_and!; try (right; by rewrite Hw); eauto.
Qed.

End schema_facts.

Lemma cell_or_empty_header df df' c r :
  header df = header df' → cell_or_empty df c r = cell_or_empty df' c r.
Proof. unfold cell_or_empty, cell. by intros ->. Qed.

Lemma canonical_votes_csv_of_votes votes :
  main.canonical_votes (csv_of_votes votes) = votes.
Proof.
  unfold main.canonical_votes.
  generalize (eq_refl : header (csv_of_votes votes) = VOTES_COLUMNS).
  generalize (csv_of_votes votes) at 1 2 3 4 5 6 7. intros df Hdf.
  unfold csv_of_votes; simpl.
  induction votes as [|[] votes IH]; [done|].
  rewrite !fmap_cons, IH. f_equal.
  rewrite !(cell_or_empty_header df {| header := VOTES_COLUMNS; body := [] |})
    by done.
  done.
Qed.

Lemma main_ensure_votes_canonical cands w df :
  votes_csv w = Some df →
  has_columns ["first_id"; "second_id"; "third_id"]%string df = true →
  run (main.ensure_votes_schema cands) w =
    (Ok (main.canonical_votes df),
     write_file VOTES_FILE (csv_of_votes (main.canonical_votes df)) w).
Proof.
  intros Hf Hc. unfold main.ensure_votes_schema.
  run_step. rewrite Hf, Hc. by repeat run_step.
Qed.

Lemma main_ensure_votes_legacy cands w df :
  votes_csv w = Some df →
  has_columns ["first_id"; "second_id"; "third_id"]%string df = false →
  has_columns ["first"; "second"; "third"]%string df = true →
  run (main.ensure_votes_schema cands) w =
    (Ok (main.legacy_votes cands df),
     write_file VOTES_FILE (csv_of_votes (main.legacy_votes cands df)) w).
Proof.
  intros Hf Hc Hl. unfold main.ensure_votes_schema.
  run_step. rewrite Hf, Hc, Hl. by repeat run_step.
Qed.

Lemma main_ensure_votes_unknown cands w df :
  votes_csv w = Some df →
  has_columns ["first_id"; "second_id"; "third_id"]%string df = false →
  has_columns ["first"; "second"; "third"]%string df = false →
  run (main.ensure_votes_schema cands) w = (Ok [], w).
Proof.
  intros Hf Hc Hl. unfold main.ensure_votes_schema.
  run_step. by rewrite Hf, Hc, Hl.
Qed.

Lemma main_ensure_votes_absent cands w :
  votes_csv w = None → run (main.ensure_votes_schema cands) w = (Ok [], w).
Proof.
  intros Hf. unfold main.ensure_votes_schema. run_step. by rewrite Hf.
Qed.

Lemma app_ensure_votes_unknown cands w df :
  votes_csv w = Some df →
  has_columns ["first_id"; "second_id"; "third_id"]%string df = false →
  has_columns ["first"; "second"; "third"]%string df = false →
  run (app.ensure_votes_schema cands) w =
    (Ok {| header := ["first_id"; "second_id"; "third_id"; "time"]%string;
           body := [] |}, w).
Proof.
  intros Hf Hc Hl. unfold app.ensure_votes_schema.
  run_step. by rewrite Hf, Hc, Hl.
Qed.

(** Opening a votes file that was written by [to_csv] of a votes frame
    returns that frame and writes the same file again. *)
Lemma main_ensure_votes_written cands w votes :
  votes_csv w = Some (csv_of_votes votes) →
  run (main.ensure_votes_schema cands) w =
    (Ok votes, write_file VOTES_FILE (csv_of_votes votes) w).
Proof.
  intros Hf. rewrite (main_ensure_votes_canonical cands w (csv_of_votes votes)) by done.
  by rewrite canonical_votes_csv_of_votes.
Qed.

(** The result of [main.ensure_votes_schema]: it never raises, and either
    leaves the environment alone and returns no vote, or stores the frame
    it returns. *)
Lemma main_ensure_votes_run cands w :
  ∃ votes, (run (main.ensure_votes_schema cands) w = (Ok votes, w) ∧ votes = [] ∧
            ∀ votes', votes_csv w ≠ Some (csv_of_votes votes'))
         ∨ run (main.ensure_votes_schema cands) w =
             (Ok votes, write_file VOTES_FILE (csv_of_votes votes) w).
Proof.
  destruct (votes_csv w) as [df|] eqn:Hf;
    [destruct (has_columns ["first_id"; "second_id"; "third_id"]%string df) eqn:Hc;
     [|destruct (has_columns ["first"; "second"; "third"]%string df) eqn:Hl]|].
  - eexists. right. by apply main_ensure_votes_canonical.
  - eexists. right. by apply main_ensure_votes_legacy.
  - exists []. left. split; [by eapply main_ensure_votes_unknown|].
    split; [done|]. intros votes' [= ->]. done.
  - exists []. left. split; [by apply main_ensure_votes_absent|]. done.
Qed.

(** Migration of the votes is idempotent: a second opening returns the same
    frame and leaves the same file. *)
Lemma main_ensure_votes_twice cands cands' w :
  let r1 := run (main.ensure_votes_schema cands) w in
  let r2 := run (main.ensure_votes_schema cands') r1.2 in
  r2.1 = r1.1 ∧ votes_csv r2.2 = votes_csv r1.2 ∧ cands_csv r2.2 = cands_csv w.
Proof.
  intros r1 r2. unfold r2, r1. clear r1 r2.
  destruct (votes_csv w) as [df|] eqn:Hf;
    [destruct (has_columns ["first_id"; "second_id"; "third_id"]%string df) eqn:Hc;
     [|destruct (has_columns ["first"; "second"; "third"]%string df) eqn:Hl]|].
  - rewrite (main_ensure_votes_canonical cands w df) by done. cbn [fst snd].
    by rewrite (main_ensure_votes_written cands' _ (main.canonical_votes df)).
  - rewrite (main_ensure_votes_legacy cands w df) by done. cbn [fst snd].
    by rewrite (main_ensure_votes_written cands' _ (main.legacy_votes cands df)).
  - rewrite (main_ensure_votes_unknown cands w df) by done. cbn [fst snd].
    by rewrite (main_ensure_votes_unknown cands' w df).
  - rewrite (main_ensure_votes_absent cands w) by done. cbn [fst snd].
    by rewrite (main_ensure_votes_absent cands' w).
Qed.



(** C6.  At a candidates file with the columns [title] and [enabled],
    [main.py] raises nothing: it draws four ids, replaces the file by the
    default candidates and returns them, where [app.py] raises
    [ValueError] and leaves the file. *)
Theorem ensure_candidates_schema_unknown_shape_defaulted :
  has_columns ["id"; "label"; "active"]%string
    {| header := ["title"; "enabled"]%string; body := [[py "Alpha"; py "yes"]] |}
  = false ∧
  has_columns ["name"]%string
    {| header := ["title"; "enabled"]%string; body := [[py "Alpha"; py "yes"]] |}
  = false ∧
  run (main.ensure_candidates_schema uuid_counter truthy) world_unknown =
    (Ok (default_candidates_at uuid_counter world_unknown),
     write_file CANDS_FILE
       (csv_of_candidates (default_candidates_at uuid_counter world_unknown))
       (Nat.iter 4 next_uuid world_unknown)) ∧
  label <$> default_candidates_at uuid_counter world_unknown = DEFAULT_CANDIDATES ∧
  run (app.ensure_candidates_schema uuid_counter truthy) world_unknown =
    (Raise ValueError, world_unknown).
Proof. split_and!; reflexivity. Qed.



(** ** The vote store *)

Section votes_facts.
Context (uuid : nat → str) (astype_bool : str → bool).

(** [load_votes] never raises; it keeps the clock and leaves a canonical
    candidates file. *)
Lemma main_load_votes_run w :
  ∃ old w1, run (main.load_votes uuid astype_bool) w = (Ok old, w1) ∧
    now w1 = now w ∧
    ∃ df', cands_csv w1 = Some df' ∧
           has_columns ["id"; "label"; "active"]%string df' = true.
Proof.
  destruct (main_ensure_candidates_run uuid astype_bool w)
    as (cs & w' & Hrun & _ & Hnow & Hcanon & _).
  unfold main.load_votes.
  destruct (main_ensure_votes_run cs w') as [votes [(Hv & _ & _)|Hv]].
  - exists votes, w'. split; [|done]. run_step. rewrite Hrun. cbv beta match.
    exact Hv.
  - eexists votes, _. split.
    { run_step. rewrite Hrun. cbv beta match. exact Hv. }
    done.
Qed.

(** After a votes frame was stored next to a canonical candidates file,
    [load_votes] returns that frame. *)
Lemma main_load_votes_written w votes df :
  cands_csv w = Some df →
  has_columns ["id"; "label"; "active"]%string df = true →
  votes_csv w = Some (csv_of_votes votes) →
  run (main.load_votes uuid astype_bool) w =
    (Ok votes, write_file VOTES_FILE (csv_of_votes votes) w).
Proof.
  intros Hf Hc Hv. unfold main.load_votes. run_step.
  rewrite (main_ensure_candidates_canonical uuid astype_bool w df) by done.
  cbv beta match. by apply main_ensure_votes_written.
Qed.

Lemma main_append_vote_run w voter_name employee_id f s t old w1 :
  run (main.load_votes uuid astype_bool) w = (Ok old, w1) →
  run (main.append_vote uuid astype_bool voter_name employee_id f s t) w =
    (Ok (),
     write_file VOTES_FILE
       (csv_of_votes
          (old ++ [{| voter_name := strip voter_name;
                      employee_id := strip employee_id;
                      first_id := f; second_id := s; third_id := t;
                      time := now w1 |}])) w1).
Proof.
  intros Hrun. unfold main.append_vote. run_step. rewrite Hrun.
  by repeat run_step.
Qed.
End votes_facts.

Lemma remove_dups_three (f s t : str) :
  length (remove_dups [f; s; t]) < 3 ↔ f = s ∨ s = t ∨ f = t.
Proof.
  simpl. repeat case_decide; simpl;
    repeat match goal with
      | H : _ ∈ _ :: _ |- _ => apply elem_of_cons in H as [?|?]
      | H : _ ∈ [] |- _ => by apply elem_of_nil in H
      | H : _ ∉ _ :: _ |- _ => apply not_elem_of_cons in H as [? ?]
      end; split; try lia; try tauto; intros; exfalso; intuition congruence.
Qed.

Lemma lstrip_fixed s :
  (∀ c, head s = Some c → is_space c = false) → lstrip s = s.
Proof. destruct s as [|c s]; [done|]. simpl. intros H. by rewrite H. Qed.

(** A text without white space at either end is its own [strip]. *)
Lemma strip_fixed s :
  (∀ c, head s = Some c → is_space c = false) →
  (∀ c, last s = Some c → is_space c = false) →
  strip s = s.
Proof.
  intros Hh Hl. unfold strip, rstrip. rewrite (lstrip_fixed s) by done.
  rewrite lstrip_fixed; [by rewrite reverse_involutive|].
  intros c Hc. apply Hl. by rewrite <-head_reverse.
Qed.




(** C9 (as amended).  The employee id is kept as text all along.  After
    [append_vote] the reloaded store ends with a row whose employee id is
    the text entered without the white space around it, hence the very
    text entered when it has none at its ends; "00042" stays "00042".  A
    migration of a votes file, from the canonical or from the legacy
    shape, returns and stores the cells of its [employee_id] column as
    they are, and so does every later opening. *)
Theorem employee_id_text_preserved
    (uuid : nat → str) (astype_bool : str → bool) (w : world)
    (voter_name emp_id f s t : str) (cands cands' : list Candidate) :
  (∃ old w1 w2,
     run (main.load_votes uuid astype_bool) w = (Ok old, w1) ∧
     run (main.load_votes uuid astype_bool)
       (run (main.append_vote uuid astype_bool voter_name emp_id f s t) w).2
     = (Ok (old ++ [new_row voter_name emp_id f s t (now w)]), w2)) ∧
  employee_id (new_row voter_name emp_id f s t (now w))
    = strip emp_id ∧
  ((∀ c, head emp_id = Some c → is_space c = false) →
   (∀ c, last emp_id = Some c → is_space c = false) →
   employee_id (new_row voter_name emp_id f s t (now w))
     = emp_id) ∧
  strip (py "00042") = py "00042" ∧
  (∀ df,
     votes_csv w = Some df →
     has_columns ["first_id"; "second_id"; "third_id"]%string df = true
     ∨ has_columns ["first"; "second"; "third"]%string df = true →
     let r1 := run (main.ensure_votes_schema cands) w in
     let r2 := run (main.ensure_votes_schema cands') r1.2 in
     ∃ votes, r1.1 = Ok votes ∧ r2.1 = Ok votes ∧
       votes_csv r1.2 = Some (csv_of_votes votes) ∧
       employee_id <$> votes
         = cell_or_empty df "employee_id" <$> body df).
Proof.
  split_and!.
  - destruct (main_load_votes_run uuid astype_bool w)
      as (old & w1 & Hload & Hnow & df' & Hf & Hc).
    exists old, w1. eexists. split; [done|].
    rewrite (main_append_vote_run uuid astype_bool w _ _ f s t old w1 Hload).
    cbn [fst snd]. rewrite Hnow.
    by apply (main_load_votes_written uuid astype_bool _ _ df').
  - done.
  - intros Hh Hl. simpl. by apply strip_fixed.
  - reflexivity.
  - intros df Hf Hshape r1 r2.
    pose proof (main_ensure_votes_twice cands cands' w) as (H21 & _ & _).
    fold r1 r2 in H21. unfold r2, r1 in *. clear r1 r2.
    destruct (has_columns ["first_id"; "second_id"; "third_id"]%string df) eqn:Hc.
    + rewrite (main_ensure_votes_canonical cands w df) in * by done.
      exists (main.canonical_votes df). split_and!; try done.
      unfold main.canonical_votes. rewrite <-list_fmap_compose.
      by apply list_fmap_ext.
    + destruct Hshape as [?|Hl]; [done|].
      rewrite (main_ensure_votes_legacy cands w df) in * by done.
      exists (main.legacy_votes cands df). split_and!; try done.
      unfold main.legacy_votes. rewrite <-list_fmap_compose.
      by apply list_fmap_ext.
Qed.

(** The employee id " 00042", entered with a space in front, is reloaded
    as "00042". *)
Lemma employee_id_stripped_counterexample :
  (run (main.load_votes uuid_counter truthy)
     (run (main.append_vote uuid_counter truthy (py "Sato") (py " 00042")
             (py "b2") (py "a1") (py "d4")) world_canonical).2).1
  = Ok [vote_abc;
        {| voter_name := py "Sato"; employee_id := py "00042";
           first_id := py "b2"; second_id := py "a1"; third_id := py "d4";
           time := now world_canonical |}] ∧
  py "00042" ≠ py " 00042".
Proof. split; [reflexivity|discriminate]. Qed.

(** The votes of the legacy sample store after migration: the employee id
    keeps its zeros, the labels become ids, the unknown label an empty id. *)
Example legacy_votes_migrated :
  (run (main.load_votes uuid_counter truthy) world_legacy).1
  = Ok [{| voter_name := []; employee_id := py "00042";
           first_id := py "u0"; second_id := py "u1"; third_id := [];
           time := [] |}].
Proof. reflexivity. Qed.

(** ** The admin handlers *)

Lemma filter_all {A} (P : A → Prop) `{!∀ x, Decision (P x)} (l : list A) :
  Forall P l → filter P l = l.
Proof.
  induction 1 as [|x l Hx _ IH]; [done|].
  by rewrite filter_cons_True, IH.
Qed.

Lemma drop_duplicates_NoDup cands :
  NoDup (cid <$> cands) → drop_duplicates cands = cands.
Proof.
  induction cands as [|c cands IH]; [done|].
  rewrite fmap_cons. intros [Hc Hnd]%NoDup_cons. simpl. rewrite IH by done.
  f_equal. apply filter_all, Forall_forall. intros d Hd Heq. apply Hc.
  rewrite <-Heq. apply list_elem_of_fmap. eauto.
Qed.

Section admin_facts.
Context (uuid : nat → str) (nfkc : str → str).




Lemma admin_blank_label_run c new_label a cands votes w :
  strip new_label = [] →
  run (main.admin_add uuid nfkc new_label cands votes) w = (Ok st_warning, w) ∧
  run (main.admin_save nfkc c new_label a cands votes) w = (Ok st_warning, w).
Proof. intros Hs. unfold main.admin_add, main.admin_save. by rewrite Hs. Qed.
End admin_facts.

(** * Further properties *)

(** ** The normaliser *)

Local Open Scope N_scope.

Lemma ALIAS_MAP_values key val : ALIAS_MAP !! key = Some val → val = PACKAGE.
Proof.
  unfold ALIAS_MAP. intros H%elem_of_list_to_map_2.
  repeat (apply elem_of_cons in H as [[= _ <-]|H]; [done|]).
  by apply elem_of_nil in H.
Qed.

Lemma hira_to_kata_not_hiragana c :
  ¬ (0x3041 ≤ hira_to_kata c ≤ 0x3096).
Proof.
  unfold hira_to_kata. case_match; split_bools; lia.
Qed.

Lemma key_alphabet (nfkc : str → str) (v : value) :
  Forall (λ c, is_separator c = false ∧ is_space c = false ∧
               ¬ (0x3041 ≤ c ≤ 0x3096))
    (normalize_for_merge nfkc v).
Proof.
  assert (∀ c, is_separator c = false → is_space c = false) as Hsp.
  { intros c. unfold is_separator. intros H.
    do 9 (apply orb_false_elim in H as [H _]). exact H. }
  destruct v as [s| | |]; simpl; try by constructor.
  destruct (ALIAS_MAP !! _) as [val|] eqn:Hal; simpl.
  - apply ALIAS_MAP_values in Hal as ->.
    repeat constructor; try (intros [? ?]; lia).
  - apply Forall_forall. intros c [Hc Hin]%list_elem_of_filter.
    split_and!; [done|by apply Hsp|].
    apply list_elem_of_fmap in Hin as (d & -> & _).
    apply hira_to_kata_not_hiragana.
Qed.

(** X1.  A key holds no separator, hence no white space, and no hiragana
    letter, whatever the normalisation form does; the key of a value that
    is no text is empty. *)
Theorem normalize_for_merge_key_alphabet (nfkc : str → str) (v : value) :
  Forall (λ c, is_separator c = false ∧ is_space c = false ∧
               ¬ (0x3041 ≤ c ≤ 0x3096))
    (normalize_for_merge nfkc v) ∧
  ((∀ s, v ≠ VStr s) → normalize_for_merge nfkc v = []).
Proof.
  split; [apply key_alphabet|].
  intros Hv. destruct v as [s| | |]; try done. by destruct (Hv s).
Qed.

Lemma lstrip_no_space s : Forall (λ c, is_space c = false) s → lstrip s = s.
Proof. destruct 1 as [|c s Hc _]; [done|]. simpl. by rewrite Hc. Qed.

Lemma strip_no_space s : Forall (λ c, is_space c = false) s → strip s = s.
Proof.
  intros Hs. unfold strip, rstrip. rewrite (lstrip_no_space s) by done.
  rewrite lstrip_no_space; [by rewrite reverse_involutive|].
  by apply Forall_reverse.
Qed.

Lemma hira_to_kata_fixed s :
  Forall (λ c, ¬ (0x3041 ≤ c ≤ 0x3096)) s → hira_to_kata <$> s = s.
Proof.
  induction 1 as [|c s Hc _ IH]; [done|]. rewrite fmap_cons, IH. f_equal.
  unfold hira_to_kata. case_match; [|done]. split_bools. lia.
Qed.

(** X2.  Normalising a key again returns it, when the key is in NFKC form. *)
Theorem normalize_for_merge_idempotent (nfkc : str → str) (v : value)
    (Hkey : nfkc (normalize_for_merge nfkc v) = normalize_for_merge nfkc v) :
  normalize_for_merge nfkc (VStr (normalize_for_merge nfkc v))
  = normalize_for_merge nfkc v.
Proof.
  pose proof (key_alphabet nfkc v) as Halpha.
  assert (ALIAS_MAP !! normalize_for_merge nfkc v = None) as Hal.
  { destruct v as [s| | |]; simpl; try done.
    destruct (ALIAS_MAP !! remove_separators _) as [val|] eqn:Hal; simpl; [|done].
    apply ALIAS_MAP_values in Hal as ->. reflexivity. }
  revert Hkey Halpha Hal. generalize (normalize_for_merge nfkc v). intros k Hk Halpha Hal.
  cbn [normalize_for_merge].
  rewrite strip_no_space, Hk
    by (eapply Forall_impl; [exact Halpha|]; by intros c (_ & ? & _)).
  rewrite hira_to_kata_fixed
    by (eapply Forall_impl; [exact Halpha|]; by intros c (_ & _ & ?)).
  unfold remove_separators. rewrite filter_all
    by (eapply Forall_impl; [exact Halpha|]; by intros c (? & _ & _)).
  by rewrite Hal.
Qed.

Lemma normalize_for_merge_idempotent_witness :
  normalize_for_merge nfkc_ka (VStr (normalize_for_merge nfkc_ka (VStr (py " a_b "))))
  = py "ab".
Proof.
  rewrite (normalize_for_merge_idempotent nfkc_ka (VStr (py " a_b ")));
    reflexivity.
Defined.

Local Close Scope N_scope.

(** ** The candidates store *)

Lemma drop_duplicates_sublist cands : drop_duplicates cands `sublist_of` cands.
Proof.
  induction cands as [|c cands IH]; [done|]. simpl.
  apply sublist_skip. etrans; [apply sublist_filter|done].
Qed.

Lemma elem_of_drop_duplicates_ids cands i :
  i ∈ cid <$> drop_duplicates cands ↔ i ∈ cid <$> cands.
Proof.
  induction cands as [|c cands IH]; [done|]. simpl.
  rewrite !elem_of_cons, <-IH, !list_elem_of_fmap.
  split.
  - intros [->|(r & -> & [_ Hr]%list_elem_of_filter)]; eauto.
  - intros [->|(r & -> & Hr)]; [by left|].
    destruct (decide (cid r = cid c)) as [->|Hne]; [by left|].
    right. exists r. split; [done|]. by apply list_elem_of_filter.
Qed.

Lemma NoDup_drop_duplicates cands : NoDup (cid <$> drop_duplicates cands).
Proof.
  induction cands as [|c cands IH]; [constructor|]. simpl.
  apply NoDup_cons. split.
  - intros (r & Heq & [Hne _]%list_elem_of_filter)%list_elem_of_fmap. done.
  - eapply sublist_NoDup; [exact IH|]. apply fmap_sublist, sublist_filter.
Qed.

(** The row kept for an id is the first row of that id. *)
Lemma drop_duplicates_first pre c post :
  (cid c ∉ cid <$> pre) → c ∈ drop_duplicates (pre ++ c :: post).
Proof.
  induction pre as [|p pre IH]; intros Hc; simpl; [by left|].
  rewrite fmap_cons in Hc. apply not_elem_of_cons in Hc as [Hne Hc].
  right. apply list_elem_of_filter. split; [done|by apply IH].
Qed.

(** X3.  [save_candidates] stores one row per id, the first one of the
    frame, in the order of the frame: the stored rows are a subsequence of
    the frame with distinct ids, every id of the frame is stored, and a
    frame with distinct ids is stored as it is.  The candidates file is
    written once; the votes file, the clock and the id generator stay. *)
Theorem save_candidates_first_row_per_id (df : list Candidate) (w : world) :
  ∃ kept,
    run (save_candidates df) w =
      (Ok (), write_file CANDS_FILE (csv_of_candidates kept) w) ∧
    NoDup (cid <$> kept) ∧
    kept `sublist_of` df ∧
    (∀ i, i ∈ cid <$> kept ↔ i ∈ cid <$> df) ∧
    (∀ pre c post, df = pre ++ c :: post → (cid c ∉ cid <$> pre) → c ∈ kept) ∧
    (NoDup (cid <$> df) → kept = df).
Proof.
  exists (drop_duplicates df). unfold save_candidates. rewrite run_to_csv.
  split_and!; try done.
  - apply NoDup_drop_duplicates.
  - apply drop_duplicates_sublist.
  - apply elem_of_drop_duplicates_ids.
  - intros pre c post -> Hc. by apply drop_duplicates_first.
  - apply drop_duplicates_NoDup.
Qed.







(** ** The votes schema *)

(** A dictionary comprehension keeps, for a key, the value of the last
    row that has the key. *)
Lemma dict_comprehension_lookup {A} (k v : A → str) (l : list A) (x : str) :
  foldl (λ m r, <[k r := v r]> m) (∅ : gmap str str) l !! x
  = v <$> last (filter (λ r, k r = x) l).
Proof.
  induction l as [|r l IH] using rev_ind; [done|].
  rewrite foldl_app, filter_app. simpl.
  rewrite filter_cons, filter_nil.
  destruct (decide (k r = x)) as [->|Hne].
  - by rewrite lookup_insert_eq, last_snoc.
  - by rewrite lookup_insert_ne, app_nil_r.
Qed.

Lemma filter_none {A} (P : A → Prop) `{!∀ x, Decision (P x)} (l : list A) :
  Forall (λ x, ¬ P x) l → filter P l = [].
Proof.
  induction 1 as [|x l Hx _ IH]; [done|].
  by rewrite filter_cons_False.
Qed.

Lemma label_to_id_lookup cands l :
  default [] (label_to_id cands !! l) = id_of_label cands l.
Proof. unfold label_to_id, id_of_label. by rewrite dict_comprehension_lookup. Qed.

Lemma id_to_label_lookup cands i : id_to_label cands !! i = label_of_id cands i.
Proof. unfold id_to_label, label_of_id. by rewrite dict_comprehension_lookup. Qed.

Lemma filter_NoDup_key {A} (k : A → str) (l : list A) (c : A) :
  NoDup (k <$> l) → c ∈ l → filter (λ r, k r = k c) l = [c].
Proof.
  induction l as [|r l IH]; intros Hnd Hc; [by apply elem_of_nil in Hc|].
  rewrite fmap_cons in Hnd. apply NoDup_cons in Hnd as [Hr Hnd].
  rewrite filter_cons. apply elem_of_cons in Hc as [->|Hc].
  - rewrite decide_True by done. f_equal.
    apply filter_none, Forall_forall. intros d Hd Heq.
    apply Hr. rewrite <-Heq. by apply list_elem_of_fmap_2.
  - rewrite decide_False; [by apply IH|].
    intros Heq. apply Hr. rewrite Heq. by apply list_elem_of_fmap_2.
Qed.

Lemma filter_absent_key {A} (k : A → str) (l : list A) (x : str) :
  (x ∉ k <$> l) → filter (λ r, k r = x) l = [].
Proof.
  intros Hx. apply filter_none, Forall_forall. intros d Hd Heq.
  apply Hx. rewrite <-Heq. by apply list_elem_of_fmap_2.
Qed.

Lemma id_of_label_unique cands c :
  NoDup (label <$> cands) → c ∈ cands → id_of_label cands (label c) = cid c.
Proof. intros Hnd Hc. unfold id_of_label. by rewrite filter_NoDup_key. Qed.

Lemma id_of_label_absent cands l :
  (l ∉ label <$> cands) → id_of_label cands l = [].
Proof. intros Hl. unfold id_of_label. by rewrite filter_absent_key. Qed.

Lemma id_of_label_elem cands l :
  id_of_label cands l = [] ∨ id_of_label cands l ∈ cid <$> cands.
Proof.
  unfold id_of_label.
  destruct (last _) as [c|] eqn:Hlast; [right|by left]. simpl.
  apply last_Some_elem_of in Hlast.
  apply list_elem_of_filter in Hlast as [_ Hc]. by apply list_elem_of_fmap_2.
Qed.

(** X5.  The votes of a legacy file (labels in [first], [second], [third])
    are migrated line by line: a label becomes the id of the last
    candidate that carries it (of the one candidate, when the labels are
    distinct), a text that is no label becomes the empty text, so every
    slot holds the id of a candidate or nothing; name, employee id and
    time are kept where the file has them; the converted frame replaces
    the file. *)
Theorem ensure_votes_schema_legacy
    (cands : list Candidate) (w : world) (df : csv)
    (Hf : votes_csv w = Some df)
    (Hc : has_columns ["first_id"; "second_id"; "third_id"]%string df = false)
    (Hl : has_columns ["first"; "second"; "third"]%string df = true) :
  ∃ votes,
    run (main.ensure_votes_schema cands) w =
      (Ok votes, write_file VOTES_FILE (csv_of_votes votes) w) ∧
    length votes = length (body df) ∧
    (∀ i r v, body df !! i = Some r → votes !! i = Some v →
       first_id v = id_of_label cands (cell_or_empty df "first" r) ∧
       second_id v = id_of_label cands (cell_or_empty df "second" r) ∧
       third_id v = id_of_label cands (cell_or_empty df "third" r) ∧
       voter_name v = cell_or_empty df "voter_name" r ∧
       employee_id v = cell_or_empty df "employee_id" r ∧
       time v = cell_or_empty df "time" r) ∧
    (∀ c, NoDup (label <$> cands) → c ∈ cands → id_of_label cands (label c) = cid c) ∧
    (∀ l, (l ∉ label <$> cands) → id_of_label cands l = []) ∧
    (∀ l, id_of_label cands l = [] ∨ id_of_label cands l ∈ cid <$> cands).
Proof.
  exists (main.legacy_votes cands df).
  split; [by apply main_ensure_votes_legacy|].
  split; [unfold main.legacy_votes; by rewrite length_fmap|].
  split_and!.
  - intros i r v Hr Hv. unfold main.legacy_votes in Hv.
    rewrite list_lookup_fmap, Hr in Hv. injection Hv as <-. simpl.
    by rewrite !label_to_id_lookup.
  - intros c Hnd Hc'. by apply id_of_label_unique.
  - apply id_of_label_absent.
  - apply id_of_label_elem.
Qed.

Lemma ensure_votes_schema_legacy_witness :
  ∃ votes,
    run (main.ensure_votes_schema [cand_a; cand_b; cand_c; cand_d]) world_legacy =
      (Ok votes, write_file VOTES_FILE (csv_of_votes votes) world_legacy) ∧
    length votes = 1.
Proof.
  destruct (ensure_votes_schema_legacy [cand_a; cand_b; cand_c; cand_d] world_legacy
              {| header := ["employee_id"; "first"; "second"; "third"]%string;
                 body := [[py "00042"; KOUHO_A; PAKE; py "?"]] |})
    as (votes & Hrun & Hlen & _); [reflexivity..|].
  exists votes. split; [exact Hrun|exact Hlen].
Defined.

Lemma app_ensure_votes_canonical cands w df :
  votes_csv w = Some df →
  has_columns ["first_id"; "second_id"; "third_id"]%string df = true →
  ∃ df', run (app.ensure_votes_schema cands) w = (Ok df', w).
Proof.
  intros Hf Hc. unfold app.ensure_votes_schema.
  run_step. rewrite Hf, Hc. by eexists.
Qed.

Lemma app_ensure_votes_legacy cands w df :
  votes_csv w = Some df →
  has_columns ["first_id"; "second_id"; "third_id"]%string df = false →
  has_columns ["first"; "second"; "third"]%string df = true →
  ∃ conv, header conv = ["first_id"; "second_id"; "third_id"; "time"]%string ∧
    run (app.ensure_votes_schema cands) w = (Ok conv, write_file VOTES_FILE conv w).
Proof.
  intros Hf Hc Hl. unfold app.ensure_votes_schema.
  run_step. rewrite Hf, Hc, Hl. eexists. split; [|by repeat run_step]. done.
Qed.

Lemma app_ensure_votes_absent cands w :
  votes_csv w = None →
  run (app.ensure_votes_schema cands) w =
    (Ok {| header := ["first_id"; "second_id"; "third_id"; "time"]%string;
           body := [] |}, w).
Proof.
  intros Hf. unfold app.ensure_votes_schema. run_step. by rewrite Hf.
Qed.

(** X6.  [ensure_votes_schema] of [app.py] writes the votes file in the
    legacy branch only: a file that has the three id columns is returned
    without a write, and after any run a second run leaves the store as
    it is. *)
Theorem app_ensure_votes_schema_store (cands cands' : list Candidate) (w : world) :
  let r1 := run (app.ensure_votes_schema cands) w in
  (run (app.ensure_votes_schema cands') r1.2).2 = r1.2 ∧
  cands_csv r1.2 = cands_csv w ∧
  (∀ df, votes_csv w = Some df →
         has_columns ["first_id"; "second_id"; "third_id"]%string df = true →
         r1.2 = w) ∧
  (∀ df, votes_csv w = Some df →
         has_columns ["first_id"; "second_id"; "third_id"]%string df = false →
         has_columns ["first"; "second"; "third"]%string df = true →
         written r1.2 = written w ++ [VOTES_FILE]) ∧
  (∀ df, votes_csv w = Some df →
         has_columns ["first_id"; "second_id"; "third_id"]%string df = false →
         has_columns ["first"; "second"; "third"]%string df = false →
         r1.2 = w) ∧
  (votes_csv w = None → r1.2 = w).
Proof.
  intros r1. unfold r1. clear r1.
  destruct (votes_csv w) as [df|] eqn:Hf;
    [destruct (has_columns ["first_id"; "second_id"; "third_id"]%string df) eqn:Hc;
     [|destruct (has_columns ["first"; "second"; "third"]%string df) eqn:Hl]|].
  - destruct (app_ensure_votes_canonical cands w df) as [d1 ->]; [done..|].
    destruct (app_ensure_votes_canonical cands' w df) as [d2 H2]; [done..|].
    cbn [fst snd]. rewrite H2.
    split_and!; try done; intros df' [= <-]; congruence.
  - destruct (app_ensure_votes_legacy cands w df) as (conv & Hh & ->); [done..|].
    cbn [fst snd].
    destruct (app_ensure_votes_canonical cands' (write_file VOTES_FILE conv w) conv)
      as [d2 ->]; [done|by unfold has_columns; rewrite Hh|].
    split_and!; try done; intros df' [= <-]; congruence.
  - rewrite (app_ensure_votes_unknown cands w df) by done. cbn [fst snd].
    rewrite (app_ensure_votes_unknown cands' w df) by done.
    split_and!; try done; intros df' [= <-]; congruence.
  - rewrite (app_ensure_votes_absent cands w) by done. cbn [fst snd].
    by rewrite (app_ensure_votes_absent cands' w).
Qed.

(** ** Totals of the leaderboard *)

Lemma sum_list_perm (l1 l2 : list nat) : l1 ≡ₚ l2 → sum_list l1 = sum_list l2.
Proof. induction 1; simpl; lia. Qed.

Lemma sum_list_indicator (x : str) (l : list str) :
  NoDup l →
  sum_list ((λ c, if decide (x = c) then 1 else 0) <$> l) =
  if decide (x ∈ l) then 1 else 0.
Proof.
  induction 1 as [|c l Hc _ IH]; [done|].
  rewrite fmap_cons. change (sum_list (?a :: ?r)) with (a + sum_list r).
  rewrite IH. destruct (decide (x = c)) as [->|Hne].
  - rewrite decide_False by done. rewrite decide_True by left. done.
  - case_decide as Hx.
    + rewrite decide_True by (by right). done.
    + rewrite decide_False; [done|]. by intros [?|?]%elem_of_cons.
Qed.

Lemma sum_list_plus {A} (f g : A → nat) (l : list A) :
  sum_list ((λ c, f c + g c) <$> l) = sum_list (f <$> l) + sum_list (g <$> l).
Proof.
  induction l as [|c l IH]; [done|].
  rewrite !fmap_cons. cbn [sum_list_with]. rewrite IH. unfold id. lia.
Qed.

(** The counts of a slot, summed over distinct ids, count the votes whose
    slot holds one of the ids. *)
Lemma sum_list_count_slot slot (l : list str) votes :
  NoDup l →
  sum_list ((λ c, count_slot slot c votes) <$> l) =
  length (filter (λ v, slot v ∈ l) votes).
Proof.
  intros Hnd. induction votes as [|v votes IH].
  { rewrite (sum_list_fmap_same 0) by (by apply Forall_forall). simpl. lia. }
  rewrite (list_fmap_ext _ (λ c, (if decide (slot v = c) then 1 else 0)
                                 + count_slot slot c votes) l)
    by (intros; apply count_slot_cons).
  rewrite sum_list_plus, IH, sum_list_indicator, filter_cons by done.
  by case_decide.
Qed.

Section totals.
Context (set_iter : list str → list str).
Hypothesis set_iter_perm : ∀ l, set_iter l ≡ₚ remove_dups l.

Lemma aggregate_sum (g : stat → nat) cands votes inc :
  sum_list (g ∘ tally <$> (aggregate set_iter cands votes inc).*2) =
  sum_list ((λ c, g (award c votes)) <$> remove_dups (scope_ids cands inc)).
Proof.
  rewrite aggregate_snd.
  rewrite (sum_list_perm _ (g ∘ tally <$> (row_of cands votes <$>
                              remove_dups (scope_ids cands inc)))).
  - by rewrite <-list_fmap_compose.
  - by rewrite aggregate_sorted_snd.
Qed.
End totals.

Lemma elem_of_scope_ids_cands cands inc c :
  c ∈ scope_ids cands inc → ∃ r, r ∈ cands ∧ cid r = c.
Proof.
  unfold scope_ids. destruct inc.
  - intros (r & -> & Hr)%list_elem_of_fmap. eauto.
  - intros (r & -> & [_ Hr]%list_elem_of_filter)%list_elem_of_fmap. eauto.
Qed.

Lemma label_of_id_elem cands r :
  r ∈ cands → ∃ r', r' ∈ cands ∧ cid r' = cid r ∧ label_of_id cands (cid r) = Some (label r').
Proof.
  intros Hr. unfold label_of_id.
  destruct (last (filter (λ c, cid c = cid r) cands)) as [r'|] eqn:Hlast.
  - exists r'. apply last_Some_elem_of, list_elem_of_filter in Hlast as [? ?]. done.
  - apply last_None in Hlast.
    exfalso. by eapply (filter_nil_not_elem_of _ cands r).
Qed.

(** X7.  The counts of the leaderboard add up to the votes: the first
    counts of all rows sum to the number of votes whose first id is in
    scope, likewise the second and third counts, and the points to three,
    two and one per such vote; so when every slot of every vote holds an id
    in scope, the points sum to six per vote.  There is one row per
    distinct id in scope. *)
Theorem aggregate_totals
    (set_iter : list str → list str)
    (Hset : ∀ l, set_iter l ≡ₚ remove_dups l)
    (cands : list Candidate) (votes : list Vote) (include_inactive : bool) :
  let rows := (aggregate set_iter cands votes include_inactive).*2 in
  let scope := scope_ids cands include_inactive in
  let nf := length (filter (λ v, first_id v ∈ scope) votes) in
  let ns := length (filter (λ v, second_id v ∈ scope) votes) in
  let nt := length (filter (λ v, third_id v ∈ scope) votes) in
  length rows = length (remove_dups scope) ∧
  sum_list (first ∘ tally <$> rows) = nf ∧
  sum_list (second ∘ tally <$> rows) = ns ∧
  sum_list (third ∘ tally <$> rows) = nt ∧
  sum_list (points ∘ tally <$> rows) = 3 * nf + 2 * ns + nt ∧
  (Forall (λ v, first_id v ∈ scope ∧ second_id v ∈ scope ∧ third_id v ∈ scope) votes →
   sum_list (points ∘ tally <$> rows) = 6 * length votes).
Proof.
  intros rows scope nf ns nt.
  assert (∀ slot, length (filter (λ v, slot v ∈ remove_dups scope) votes)
                  = length (filter (λ v : Vote, slot v ∈ scope) votes)) as Hdup.
  { intros slot. f_equal. apply list_filter_iff. intros v. apply elem_of_remove_dups. }
  assert (sum_list (first ∘ tally <$> rows) = nf) as Hf.
  { unfold rows. rewrite aggregate_sum by done. simpl.
    rewrite (sum_list_count_slot first_id) by apply NoDup_remove_dups. apply Hdup. }
  assert (sum_list (second ∘ tally <$> rows) = ns) as Hs.
  { unfold rows. rewrite aggregate_sum by done. simpl.
    rewrite (sum_list_count_slot second_id) by apply NoDup_remove_dups. apply Hdup. }
  assert (sum_list (third ∘ tally <$> rows) = nt) as Ht.
  { unfold rows. rewrite aggregate_sum by done. simpl.
    rewrite (sum_list_count_slot third_id) by apply NoDup_remove_dups. apply Hdup. }
  assert (sum_list (points ∘ tally <$> rows) = 3 * nf + 2 * ns + nt) as Hp.
  { unfold rows. rewrite aggregate_sum by done. simpl.
    rewrite (sum_list_plus (λ c, 3 * count_slot first_id c votes + 2 * count_slot second_id c votes)
               (λ c, count_slot third_id c votes)).
    rewrite (sum_list_plus (λ c, 3 * count_slot first_id c votes)
               (λ c, 2 * count_slot second_id c votes)).
    rewrite (sum_list_count_slot third_id) by apply NoDup_remove_dups.
    assert (∀ k (f : str → nat) l, sum_list ((λ c, k * f c) <$> l) = k * sum_list (f <$> l))
      as Hmul.
    { intros k f l. induction l as [|c l IH]; [simpl; lia|].
      rewrite !fmap_cons. cbn [sum_list_with]. rewrite IH. unfold id. lia. }
    rewrite !Hmul, !sum_list_count_slot by apply NoDup_remove_dups.
    rewrite !Hdup. done. }
  split_and!; try done.
  - unfold rows. rewrite aggregate_snd.
    rewrite (aggregate_sorted_snd set_iter Hset). by rewrite length_fmap.
  - intros Hall. rewrite Hp. unfold nf, ns, nt.
    rewrite !filter_all; [lia|..];
      (eapply Forall_impl; [exact Hall|]); by intros v (?&?&?).
Qed.

Lemma aggregate_totals_witness :
  sum_list (points ∘ tally <$>
    (aggregate first_seen [cand_a; cand_b; cand_c; cand_d] [vote_abc; vote_bad] true).*2)
  = 12.
Proof.
  destruct (aggregate_totals first_seen (λ l, reflexivity (remove_dups l))
              [cand_a; cand_b; cand_c; cand_d] [vote_abc; vote_bad] true)
    as (_ & _ & _ & _ & _ & H).
  apply H. repeat constructor; vm_compute; tauto.
Defined.

(** X8.  Every row of the leaderboard carries the label of a candidate of
    its id, so the bracketed id that stands in for a missing label is
    never shown; and the rows of the active candidates are rows of the
    full leaderboard: leaving the inactive candidates out changes no label
    and no tally of the others. *)
Theorem aggregate_rows_of_candidates
    (set_iter : list str → list str)
    (Hset : ∀ l, set_iter l ≡ₚ remove_dups l)
    (cands : list Candidate) (votes : list Vote) (include_inactive : bool) :
  (∀ r, r ∈ (aggregate set_iter cands votes include_inactive).*2 →
        ∃ c, c ∈ cands ∧ kouho r = label c ∧ tally r = award (cid c) votes ∧
             (include_inactive = false → ∃ c', c' ∈ cands ∧ cid c' = cid c ∧ active c' = true)) ∧
  (∀ r, r ∈ (aggregate set_iter cands votes false).*2 →
        r ∈ (aggregate set_iter cands votes true).*2).
Proof.
  split.
  - intros r. rewrite aggregate_snd, (aggregate_sorted_snd set_iter Hset).
    intros (c & -> & Hc)%list_elem_of_fmap. rewrite elem_of_remove_dups in Hc.
    destruct (elem_of_scope_ids_cands _ _ _ Hc) as (r0 & Hr0 & <-).
    destruct (label_of_id_elem cands r0 Hr0) as (r' & Hr' & Hid & Hlab).
    exists r'. unfold row_of. simpl. rewrite id_to_label_lookup, Hlab, Hid.
    split_and!; try done.
    intros ->. unfold scope_ids in Hc.
    apply list_elem_of_fmap in Hc as (c' & Hcid & [Hact Hc']%list_elem_of_filter).
    exists c'. split_and!; congruence.
  - intros r. rewrite !aggregate_snd, !(aggregate_sorted_snd set_iter Hset).
    intros (c & -> & Hc)%list_elem_of_fmap. rewrite elem_of_remove_dups in Hc.
    apply list_elem_of_fmap. exists c. split; [done|].
    apply elem_of_remove_dups. unfold scope_ids in *.
    apply list_elem_of_fmap in Hc as (c' & -> & [_ Hc']%list_elem_of_filter).
    by apply list_elem_of_fmap_2.
Qed.

Lemma aggregate_rows_of_candidates_witness :
  {| kouho := KOUHO_A;
     tally := {| points := 5; first := 1; second := 1; third := 0 |} |}
  ∈ (aggregate first_seen [cand_a; cand_b; cand_c] [vote_abc; vote_bad] true).*2.
Proof.
  destruct (aggregate_rows_of_candidates first_seen (λ l, reflexivity (remove_dups l))
              [cand_a; cand_b; cand_c] [vote_abc; vote_bad] true) as [_ H].
  apply H. vm_compute. apply list_elem_of_lookup_2 with 1. reflexivity.
Defined.

(** ** Conservation of the tallies under a merge *)








(** ** The handlers of the admin page *)



(** X10.  A label that is empty once stripped, one made of white space for
    instance, is refused by the add and by the save handler: a warning,
    and nothing is drawn, written or changed. *)
Theorem admin_blank_label_refused
    (uuid : nat → str) (nfkc : str → str) (c new_label : str) (a : bool)
    (cands : list Candidate) (votes : list Vote) (w : world)
    (Hblank : forallb is_space new_label = true) :
  run (main.admin_add uuid nfkc new_label cands votes) w = (Ok st_warning, w) ∧
  run (main.admin_save nfkc c new_label a cands votes) w = (Ok st_warning, w).
Proof. apply admin_blank_label_run. by apply strip_all_space. Qed.

Lemma admin_blank_label_refused_witness :
  run (main.admin_add uuid_counter nfkc_ka (py "   ") [cand_a] [vote_abc])
    world_canonical = (Ok st_warning, world_canonical).
Proof.
  apply (admin_blank_label_refused uuid_counter nfkc_ka (py "a1") (py "   ") true
           [cand_a] [vote_abc] world_canonical).
  reflexivity.
Defined.





(** ** The toggle and the reset button *)

Lemma NoDup_cid_inj cands r r' :
  NoDup (cid <$> cands) → r ∈ cands → r' ∈ cands → cid r = cid r' → r = r'.
Proof.
  intros Hnd Hr Hr' Heq.
  apply list_elem_of_lookup in Hr as [i Hi]. apply list_elem_of_lookup in Hr' as [j Hj].
  assert (i = j) as ->; [|congruence].
  eapply NoDup_lookup; [exact Hnd|..]; rewrite list_lookup_fmap.
  - by rewrite Hi.
  - rewrite Hj. simpl. by rewrite Heq.
Qed.

Lemma id_to_label_fmap (f : Candidate → Candidate) cands :
  (∀ r, cid (f r) = cid r ∧ label (f r) = label r) →
  id_to_label (f <$> cands) = id_to_label cands.
Proof.
  intros Hf. unfold id_to_label. generalize (∅ : gmap (list N) (list N)).
  induction cands as [|r cands IH]; intros m; [done|].
  rewrite fmap_cons. simpl. destruct (Hf r) as [-> ->]. apply IH.
Qed.

Lemma toggle_active_keeps row r :
  let r' := if decide (cid r = cid row)
            then {| cid := cid r; label := label r; active := negb (active row) |}
            else r in
  cid r' = cid r ∧ label r' = label r.
Proof. simpl. by case_decide. Qed.

(** X13.  The toggle button flips one candidate and nothing else.  Ids,
    labels and order stay; the candidate is offered on the vote page
    afterwards exactly when it was inactive before, and every other
    candidate is offered as before; with distinct ids the new frame is
    what is stored, pressing the button of the same row again gives the
    frame back, and the leaderboard over all candidates is the same
    before and after. *)
Theorem toggle_active_flips_one
    (row : Candidate) (cands : list Candidate) (Hrow : row ∈ cands) :
  let cands' := main.toggle_active row cands in
  let row' := {| cid := cid row; label := label row; active := negb (active row) |} in
  cid <$> cands' = cid <$> cands ∧
  label <$> cands' = label <$> cands ∧
  (cid row ∈ main.id_list cands' ↔ active row = false) ∧
  (∀ i, i ≠ cid row → i ∈ main.id_list cands' ↔ i ∈ main.id_list cands) ∧
  (∀ set_iter votes,
     aggregate set_iter cands' votes true = aggregate set_iter cands votes true) ∧
  (NoDup (cid <$> cands) →
     row' ∈ cands' ∧
     main.toggle_active row' cands' = cands ∧
     ∀ w, run (main.admin_toggle row cands) w =
          (Ok (), write_file CANDS_FILE (csv_of_candidates cands') w)).
Proof.
  intros cands' row'.
  assert (cid <$> cands' = cid <$> cands) as Hcid.
  { unfold cands', main.toggle_active. rewrite <-list_fmap_compose.
    apply list_fmap_ext. intros _ r _. apply toggle_active_keeps. }
  split_and!.
  - done.
  - unfold cands', main.toggle_active. rewrite <-list_fmap_compose.
    apply list_fmap_ext. intros _ r _. apply toggle_active_keeps.
  - unfold main.id_list, cands', main.toggle_active.
    rewrite list_elem_of_fmap. split.
    + intros (r' & Hid & [Hact (r & -> & Hr)%list_elem_of_fmap]%list_elem_of_filter).
      case_decide as Hd; simpl in *; [by apply negb_true_iff|congruence].
    + intros Hact. exists row'. split; [done|]. apply list_elem_of_filter.
      split; [simpl; by rewrite Hact|].
      apply list_elem_of_fmap. exists row. by rewrite decide_True.
  - intros i Hi. unfold main.id_list, cands', main.toggle_active.
    rewrite !list_elem_of_fmap. split.
    + intros (r' & -> & [Hact (r & -> & Hr)%list_elem_of_fmap]%list_elem_of_filter).
      case_decide as Hd; simpl in *; [congruence|].
      exists r. split; [done|]. by apply list_elem_of_filter.
    + intros (r & -> & [Hact Hr]%list_elem_of_filter).
      exists r. split; [done|]. apply list_elem_of_filter. split; [done|].
      apply list_elem_of_fmap. exists r. by rewrite decide_False.
  - intros set_iter votes.
    assert (id_to_label cands' = id_to_label cands) as Hlab.
    { apply id_to_label_fmap. intros r. apply toggle_active_keeps. }
    assert (scope_ids cands' true = scope_ids cands true) as Hscope by exact Hcid.
    clearbody cands'.
    unfold aggregate, aggregate_sorted, aggregate_rows, tally_votes.
    by rewrite Hlab, Hscope.
  - intros Hnd. split_and!.
    + apply list_elem_of_fmap. exists row. by rewrite decide_True.
    + unfold cands', main.toggle_active. rewrite <-list_fmap_compose.
      rewrite <-(list_fmap_id cands) at 2. apply list_fmap_ext.
      intros i r Hr. apply list_elem_of_lookup_2 in Hr. simpl.
      destruct (decide (cid r = cid row)) as [Heq|Hne]; simpl.
      * rewrite decide_True by done. simpl. rewrite negb_involutive.
        rewrite (NoDup_cid_inj cands r row) by done. by destruct row.
      * by rewrite decide_False.
    + intros w. unfold main.admin_toggle, save_candidates.
      rewrite drop_duplicates_NoDup; [done|]. fold cands'. by rewrite Hcid.
Qed.

Lemma toggle_active_flips_one_witness :
  main.toggle_active cand_c [cand_a; cand_b; cand_c] =
  [cand_a; cand_b; {| cid := py "c3"; label := PAKE; active := true |}] ∧
  py "c3" ∈ main.id_list (main.toggle_active cand_c [cand_a; cand_b; cand_c]).
Proof.
  split; [reflexivity|].
  assert (cand_c ∈ [cand_a; cand_b; cand_c]) as Hrow
    by (apply (bool_decide_unpack _); reflexivity).
  destruct (toggle_active_flips_one cand_c [cand_a; cand_b; cand_c] Hrow)
    as (_ & _ & H & _).
  by apply H.
Defined.



(** ** The vote list and the vote page *)






(** X16.  The three select boxes offer no choice and the ids of the active
    candidates, in the order of the frame; a submission made of such
    options that is accepted carries three different ids of active
    candidates, a name and an employee id, and leaves a votes file that
    ends with the new row. *)
Theorem vote_submit_accepts_active_choices
    (uuid : nat → str) (astype_bool : str → bool) (cands : list Candidate)
    (w w' : world) (voter_name emp_id : str) (fo so to : option str)
    (Hf : fo ∈ main.select_options cands)
    (Hs : so ∈ main.select_options cands)
    (Ht : to ∈ main.select_options cands)
    (Hrun : run (main.vote_submit uuid astype_bool voter_name emp_id fo so to) w
            = (Ok st_success, w')) :
  ∃ f s t,
    fo = Some f ∧ so = Some s ∧ to = Some t ∧
    f ≠ s ∧ s ≠ t ∧ f ≠ t ∧ voter_name ≠ [] ∧ emp_id ≠ [] ∧
    f ∈ scope_ids cands false ∧ s ∈ scope_ids cands false ∧
    t ∈ scope_ids cands false ∧
    ∃ old, votes_csv w' =
             Some (csv_of_votes (old ++ [new_row voter_name emp_id f s t (now w)])).
Proof.
  assert (∀ o x, o ∈ main.select_options cands → o = Some x → x ∈ scope_ids cands false)
    as Hopt.
  { intros o x Ho ->. unfold main.select_options in Ho.
    apply elem_of_cons in Ho as [?|Ho]; [done|].
    apply list_elem_of_fmap in Ho as (y & [= <-] & Hy). exact Hy. }
  unfold main.vote_submit in Hrun.
  case_bool_decide as Hblank; [done|].
  destruct fo as [f|], so as [s|], to as [t|]; try done.
  case_bool_decide as Hdup; [done|].
  rewrite remove_dups_three in Hdup.
  exists f, s, t. split_and!; eauto; try (intros ->; tauto).
  destruct (main_load_votes_run uuid astype_bool w) as (old & w1 & Hload & Hnow & _).
  exists old. revert Hrun. run_step.
  rewrite (main_append_vote_run uuid astype_bool w _ _ f s t old w1 Hload).
  run_step. intros [= <-]. simpl. by rewrite Hnow.
Qed.

Lemma vote_submit_accepts_active_choices_witness :
  ∃ old, votes_csv
           (run (main.vote_submit uuid_counter truthy (py "Sato") (py "7")
                   (Some (py "a1")) (Some (py "b2")) (Some (py "d4")))
              world_canonical).2
         = Some (csv_of_votes
                   (old ++ [new_row (py "Sato") (py "7") (py "a1") (py "b2") (py "d4")
                              (now world_canonical)])).
Proof.
  destruct (vote_submit_accepts_active_choices uuid_counter truthy
              [cand_a; cand_b; cand_c; cand_d] world_canonical
              (run (main.vote_submit uuid_counter truthy (py "Sato") (py "7")
                      (Some (py "a1")) (Some (py "b2")) (Some (py "d4")))
                 world_canonical).2
              (py "Sato") (py "7") (Some (py "a1")) (Some (py "b2")) (Some (py "d4")))
    as (f & s & t & [= <-] & [= <-] & [= <-] & _ & _ & _ & _ & _ & _ & _ & _ & Hold);
    [apply (bool_decide_unpack _); reflexivity..|reflexivity|].
  exact Hold.
Defined.

(** X17.  The two versions of [ensure_candidates_schema] differ on one
    shape of file only: they return the same frame and leave the same
    store, unless the file exists and has neither the three canonical
    columns nor a [name] column, where [app.py] raises and leaves the
    store and [main.py] goes on to the first-run generation. *)
Theorem ensure_candidates_schema_versions
    (uuid : nat → str) (astype_bool : str → bool) (w : world) :
  run (app.ensure_candidates_schema uuid astype_bool) w =
    run (main.ensure_candidates_schema uuid astype_bool) w
  ∨ (∃ df, cands_csv w = Some df ∧
           has_columns ["id"; "label"; "active"]%string df = false ∧
           has_columns ["name"]%string df = false ∧
           run (app.ensure_candidates_schema uuid astype_bool) w = (Raise ValueError, w) ∧
           run (main.ensure_candidates_schema uuid astype_bool) w =
             (Ok (default_candidates_at uuid w),
              write_file CANDS_FILE (csv_of_candidates (default_candidates_at uuid w))
                (Nat.iter (length DEFAULT_CANDIDATES) next_uuid w))).
Proof.
  destruct (cands_csv w) as [df|] eqn:Hf;
    [destruct (has_columns ["id"; "label"; "active"]%string df) eqn:Hc;
     [|destruct (has_columns ["name"]%string df) eqn:Hn]|].
  - left. unfold app.ensure_candidates_schema, main.ensure_candidates_schema.
    run_step. by rewrite Hf, Hc.
  - left. unfold app.ensure_candidates_schema, main.ensure_candidates_schema.
    run_step. by rewrite Hf, Hc, Hn.
  - right. exists df. split_and!; try done.
    + by apply (app_ensure_candidates_unknown uuid astype_bool w df).
    + rewrite (main_ensure_candidates_unknown uuid astype_bool w df) by done.
      apply generate_default_candidates_run.
  - left. unfold app.ensure_candidates_schema, main.ensure_candidates_schema.
    run_step. by rewrite Hf.
Qed.

(** ** The merge of [app.py] *)

Lemma merge_loop_eq target dups cands votes :
  app.merge_loop target dups cands votes =
  (remove_ids (cid <$> dups) cands,
   if votes is [] then votes else repoint dups target votes).
Proof.
  unfold app.merge_loop, repoint. revert cands votes.
  induction dups as [|d dups IH]; intros cands votes.
  { simpl. rewrite remove_ids_nil. by destruct votes. }
  cbn [foldl]. rewrite IH. cbn [fst snd]. f_equal.
  - unfold remove_ids. rewrite fmap_cons.
    induction cands as [|c cands IHc]; [done|].
    rewrite !filter_cons.
    destruct (decide (cid c = cid d)) as [Heq|Hne].
    + rewrite decide_False by (intros H; by apply H).
      rewrite (decide_False (P := cid c ∉ cid d :: _))
        by (intros H; apply H; rewrite Heq; left).
      apply IHc.
    + rewrite decide_True by done. rewrite filter_cons.
      destruct (decide (cid c ∈ cid <$> dups)) as [Hin|Hout].
      * rewrite decide_False by (intros H; by apply H).
        rewrite (decide_False (P := cid c ∉ cid d :: _))
          by (intros H; apply H; by right).
        apply IHc.
      * rewrite decide_True by done.
        rewrite (decide_True (P := cid c ∉ cid d :: _))
          by (by intros [?|?]%elem_of_cons).
        f_equal. apply IHc.
  - destruct votes as [|v votes]; [done|]. by rewrite fmap_cons.
Qed.

(** X18.  The merge of [app.py], which drops the rows of [conflict] one at a
    time inside the loop that repoints their votes, stores the same
    candidates and the same votes as the merge of [main.py], which drops
    them all at once after the loop: in the add handler, and in the save
    handler for the same [conflict]. *)
Theorem app_merge_same_as_main
    (nfkc : str → str) (cands : list Candidate) (votes : list Vote)
    (label_s : str) :
  (∀ base dups,
     app.add_merge label_s base dups cands votes =
     main.add_merge label_s base dups cands votes) ∧
  (∀ c a,
     app.save_merge (main.save_conflict nfkc c label_s cands) c label_s a cands votes =
     main.save_merge nfkc c label_s a cands votes).
Proof.
  split.
  - intros base dups. unfold app.add_merge, main.add_merge.
    by rewrite merge_loop_eq.
  - intros c a. unfold app.save_merge, main.save_merge.
    rewrite merge_loop_eq.
    destruct (main.save_conflict nfkc c label_s cands) as [|d ds] eqn:Hconf.
    + simpl. rewrite remove_ids_nil. by destruct votes.
    + done.
Qed.
